(** * scrutiny-fabric: NIP-19 identifier decoding and the HTTP helpers of
    [publish_nostr.py]

    A shallow embedding of the bech32 / TLV / naddr / nprofile decoders, of
    the retrying HTTP client, of the relay proof-of-work probe, of the naddr
    resolver and of the CPE and relay-list helpers, followed by the
    properties stated about them.

    Conventions.
    - A Python [int] is a [Z]; a Python [str] is the list of its code points
      ([list Z]); [bytes] is a [list byte]; a [dict] is a [gmap].
    - A function that may raise returns a [result]; a [while] loop is a
      fixpoint on a fuel counter whose result is [Diverge] when the fuel runs
      out, and each such loop comes with a lemma showing that the fuel its
      caller passes is enough. *)

From Stdlib Require Import ZArith List Lia String Ascii Bool QArith Qcanon.
From Stdlib.Strings Require Import Byte.
From stdpp Require Import base tactics option list numbers gmap.

Local Open Scope Z_scope.

(** ** Python values *)

Abbreviation str := (list Z) (only parsing).
Abbreviation bytes := (list byte) (only parsing).

(** A string literal of the source, as the list of its code points. *)
Definition lit (s : string) : list Z :=
  map (fun a => Z.of_N (N_of_ascii a)) (list_ascii_of_string s).

Definition ord_byte (b : byte) : Z := Z.of_N (Byte.to_N b).

Definition len {A} (l : list A) : Z := Z.of_nat (length l).

(** Exceptions. [ValueError] and [RuntimeError] carry the message of the
    source; [HTTPStatus code] is [RuntimeError(f"HTTP {code}")];
    [LibraryError] stands for whatever a library call raised. *)
Inductive exn : Type :=
| ValueError (msg : string)
| RuntimeError (msg : string)
| HTTPStatus (code : Z)
| IndexError
| AssertionError
| AttributeError
| LibraryError (what : string).

Inductive result (A : Type) : Type :=
| Ok (a : A)
| Raise (e : exn)
| Diverge.
Arguments Ok {A} a.
Arguments Raise {A} e.
Arguments Diverge {A}.

Definition is_ok {A} (r : result A) : bool :=
  match r with Ok _ => true | _ => false end.

Definition raises {A} (r : result A) : Prop := exists e, r = Raise e.

#[global] Instance result_ret : MRet result := fun _ a => Ok a.
#[global] Instance result_bind : MBind result := fun _ _ k r =>
  match r with Ok a => k a | Raise e => Raise e | Diverge => Diverge end.

(** [seq[i]] for a non-negative or negative index. *)
Definition py_index {A} (l : list A) (i : Z) : result A :=
  let j := if i <? 0 then i + len l else i in
  if j <? 0 then Raise IndexError
  else match l !! Z.to_nat j with
       | Some x => Ok x
       | None => Raise IndexError
       end.

(** [seq[lo:hi]]: both bounds are clamped, a negative bound counts from the
    end. *)
Definition clamp (k n : Z) : Z :=
  if k <? 0 then Z.max 0 (k + n) else Z.min k n.

Definition py_slice {A} (l : list A) (lo hi : Z) : list A :=
  let a := clamp lo (len l) in
  let b := clamp hi (len l) in
  take (Z.to_nat (b - a)) (drop (Z.to_nat a) l).

(** ** TLV records: [_parse_tlvs] *)

Module TLV.

(** [tlvs.setdefault(t, []).append(v)] *)
Definition setdefault_append (t : Z) (v : list byte)
    (tlvs : gmap Z (list (list byte))) : gmap Z (list (list byte)) :=
  <[ t := default [] (tlvs !! t) ++ [v] ]> tlvs.

(** The body of [while i + 2 <= len(payload)]. *)
Fixpoint parse_loop (fuel : nat) (payload : list byte) (i : Z)
    (tlvs : gmap Z (list (list byte)))
    : result (gmap Z (list (list byte))) :=
  match fuel with
  | O => Diverge
  | S fuel' =>
      if i + 2 <=? len payload then
        t ← py_index payload i;
        l ← py_index payload (i + 1);
        let t := ord_byte t in
        let l := ord_byte l in
        let i := i + 2 in
        if i + l >? len payload then Ok tlvs
        else
          let v := py_slice payload i (i + l) in
          let i := i + l in
          parse_loop fuel' payload i (setdefault_append t v tlvs)
      else Ok tlvs
  end.

Definition _parse_tlvs (payload : list byte)
    : result (gmap Z (list (list byte))) :=
  parse_loop (S (length payload)) payload 0 ∅.

(** The records of a buffer in the words of the specification: one type
    byte, one length byte and that many value bytes, for as long as the
    buffer holds a whole record. *)
Inductive scan : list byte -> list (Z * list byte) -> Prop :=
| scan_header (buf : list byte) :
    (length buf < 2)%nat -> scan buf []
| scan_truncated (t l : byte) (rest : list byte) :
    len rest < ord_byte l -> scan (t :: l :: rest) []
| scan_record (t l : byte) (v rest : list byte) (rs : list (Z * list byte)) :
    len v = ord_byte l ->
    scan rest rs ->
    scan (t :: l :: v ++ rest) ((ord_byte t, v) :: rs).

(** The multi-map of a list of records, filled in buffer order. *)
Definition collect (rs : list (Z * list byte))
    (tlvs : gmap Z (list (list byte))) : gmap Z (list (list byte)) :=
  fold_left (fun m r => setdefault_append (fst r) (snd r) m) rs tlvs.

(** The buffer [0x00 0x03 'a' 'b' 'c' 0x02 0x20] followed by 32 bytes 0x01. *)
Definition example_buffer : list byte :=
  [Byte.x00; Byte.x03; Byte.x61; Byte.x62; Byte.x63; Byte.x02; Byte.x20]
  ++ replicate 32 Byte.x01.

(** The values of the records of type [t], in buffer order. *)
Definition values_of (t : Z) (rs : list (Z * list byte)) : list (list byte) :=
  omap (fun r => if bool_decide (fst r = t) then Some (snd r) else None) rs.

(** [tlvs.get(t)] of a multi-map whose lists are never empty. *)
Definition listed (vs : list (list byte)) : option (list (list byte)) :=
  match vs with [] => None | _ => Some vs end.

End TLV.

(** ** Library behaviour taken as an interface

    What the source gets from the Python runtime and cannot be read off the
    repository: the Unicode case mappings and whitespace stripping of [str],
    [urllib.parse.urlparse], the three regular-expression calls and
    [json.loads]. The case
    mappings are fixed on the printable ASCII range, where they are the
    familiar ones. *)

Definition printable (x : Z) : bool := negb ((x <? 33) || (x >? 126)).

Definition ascii_lower (x : Z) : Z :=
  if (65 <=? x) && (x <=? 90) then x + 32 else x.
Definition ascii_upper (x : Z) : Z :=
  if (97 <=? x) && (x <=? 122) then x - 32 else x.

Record url_parts := { scheme : list Z; netloc : list Z; path : list Z }.

(** What [json.loads] builds: [None], [bool], [int], [float], [str], [list]
    and [dict] with string keys. *)
#[local] Unset Elimination Schemes.
Inductive json : Type :=
| JNull
| JBool (b : bool)
| JInt (z : Z)
| JFloat (q : Qc)
| JStr (s : list Z)
| JArr (l : list json)
| JObj (m : gmap (list Z) json).
#[local] Set Elimination Schemes.

Class PyLib := {
  str_lower : list Z -> list Z;
  str_upper : list Z -> list Z;
  str_strip : list Z -> list Z;
  (** [urlparse(s)], or the exception it raised *)
  urlparse : list Z -> result url_parts;
  (** [re.fullmatch(r"(n(sec|pub|profile|event|addr)|note)1[0-9a-z]+", s)] *)
  re_token_fullmatch : list Z -> bool;
  (** [re.search(r"(n(?:sec|pub|profile|event|addr)|note)1[0-9a-z]+", s, re.I)],
      as [m.group(0)] *)
  re_token_search : list Z -> option (list Z);
  (** [re.search(r"[0-9a-fA-F]{64}", s)], as [m.group(0)] *)
  re_hex64_search : list Z -> option (list Z);
  (** [json.loads(s)], or the exception it raised *)
  json_loads : list Z -> result json;
  str_lower_printable s :
    forallb printable s = true -> str_lower s = map ascii_lower s;
  str_upper_printable s :
    forallb printable s = true -> str_upper s = map ascii_upper s
}.

(** ** Bech32: [_bech32_polymod] to [_nip19_payload] *)

Module Bech32.

Definition _BECH32_CHARSET : list Z := lit "qpzry9x8gf2tvdw0s3jn54khce6mua7l".

(** [{c: i for i, c in enumerate(_BECH32_CHARSET)}] *)
Definition _BECH32_CHARSET_MAP : gmap Z Z :=
  fold_left (fun m ic => <[ snd ic := fst ic ]> m)
    (imap (fun i c => (Z.of_nat i, c)) _BECH32_CHARSET) ∅.

Definition GEN : list Z :=
  [0x3b6a57b2; 0x26508e6d; 0x1ea119fa; 0x3d4233dd; 0x2a1462b3].

(** One round of [for v in values]; [GEN[i]] is read at [i] in [range(5)]. *)
Definition polymod_step (chk v : Z) : Z :=
  let b := Z.land (Z.shiftr chk 25) 0xFF in
  let chk := Z.lxor (Z.shiftl (Z.land chk 0x1FFFFFF) 5) v in
  fold_left
    (fun chk i =>
       Z.lxor chk (if Z.land (Z.shiftr b i) 1 =? 0 then 0
                   else GEN !!! Z.to_nat i))
    (seqZ 0 5) chk.

Definition _bech32_polymod (values : list Z) : Z :=
  fold_left polymod_step values 1.

Definition _bech32_hrp_expand (hrp : list Z) : list Z :=
  map (fun x => Z.shiftr x 5) hrp ++ [0] ++ map (fun x => Z.land x 31) hrp.

Definition _bech32_verify_checksum (hrp : list Z) (data : list Z) : bool :=
  _bech32_polymod (_bech32_hrp_expand hrp ++ data) =? 1.

(** [s.rfind(c)] for a one-character [c]: the highest index, or -1. *)
Fixpoint rfind_from (s : list Z) (c : Z) (i last : Z) : Z :=
  match s with
  | [] => last
  | x :: s' => rfind_from s' c (i + 1) (if x =? c then i else last)
  end.
Definition rfind (s : list Z) (c : Z) : Z := rfind_from s c 0 (-1).

Definition one : Z := 49.

(** The generator words [polymod_step] mixes in for the top bits [b]. *)
Definition feedback (b : Z) : Z :=
  fold_left
    (fun chk i =>
       Z.lxor chk (if Z.land (Z.shiftr b i) 1 =? 0 then 0
                   else GEN !!! Z.to_nat i))
    (seqZ 0 5) 0.

(** [polymod_step] on a difference: what a change [d] of the checksum
    state becomes after one more value. *)
Definition spread (d : Z) : Z := polymod_step d 0.

Section Decode.
Context `{PyLib}.

(** [(None, None)] is [None]; the two components are never mixed. *)
Definition _bech32_decode_to_words (bech : list Z)
    : option (list Z * list Z) :=
  if (bool_decide (str_lower bech ≠ bech)
      && bool_decide (str_upper bech ≠ bech))
     || existsb (fun x => (x <? 33) || (x >? 126)) bech
  then None
  else
    let bech := str_lower bech in
    let pos := rfind bech one in
    if (pos <? 1) || (pos + 7 >? len bech) then None
    else
      let hrp := py_slice bech 0 pos in
      let data_part := py_slice bech (pos + 1) (len bech) in
      match mapM (fun c => _BECH32_CHARSET_MAP !! c) data_part with
      | None => None
      | Some data =>
          if negb (_bech32_verify_checksum hrp data) then None
          else Some (hrp, py_slice data 0 (-6))
      end.

End Decode.

(** [bytearray.append]: the value must be in [range(256)]. *)
Definition byte_of_int (x : Z) : result byte :=
  if (x <? 0) || (255 <? x) then Raise (ValueError "byte must be in range(0, 256)")
  else match Byte.of_N (Z.to_N x) with
       | Some b => Ok b
       | None => Raise (ValueError "byte must be in range(0, 256)")
       end.

(** [while bits >= tobits: bits -= tobits; ret.append((acc >> bits) & maxv)] *)
Fixpoint emit_loop (fuel : nat) (acc bits tobits maxv : Z) (ret : list byte)
    : result (Z * list byte) :=
  match fuel with
  | O => Diverge
  | S fuel' =>
      if bits >=? tobits then
        let bits := bits - tobits in
        b ← byte_of_int (Z.land (Z.shiftr acc bits) maxv);
        emit_loop fuel' acc bits tobits maxv (ret ++ [b])
      else Ok (bits, ret)
  end.

(** [for value in data]; [None] inside [Ok] is the early [return None]. *)
Fixpoint convert_loop (data : list Z) (frombits tobits maxv max_acc : Z)
    (acc bits : Z) (ret : list byte) : result (option (Z * Z * list byte)) :=
  match data with
  | [] => Ok (Some (acc, bits, ret))
  | value :: data' =>
      if (value <? 0) || negb (Z.shiftr value frombits =? 0) then Ok None
      else
        let acc := Z.land (Z.lor (Z.shiftl acc frombits) value) max_acc in
        let bits := bits + frombits in
        '(bits, ret) ← emit_loop (S (Z.to_nat bits)) acc bits tobits maxv ret;
        convert_loop data' frombits tobits maxv max_acc acc bits ret
  end.

Definition _convertbits (data : list Z) (frombits tobits : Z) (pad : bool)
    : result (option (list byte)) :=
  let acc := 0 in
  let bits := 0 in
  let ret := [] in
  let maxv := Z.shiftl 1 tobits - 1 in
  let max_acc := Z.shiftl 1 (frombits + tobits - 1) - 1 in
  st ← convert_loop data frombits tobits maxv max_acc acc bits ret;
  match st with
  | None => Ok None
  | Some (acc, bits, ret) =>
      if pad then
        if negb (bits =? 0) then
          b ← byte_of_int (Z.land (Z.shiftl acc (tobits - bits)) maxv);
          Ok (Some (ret ++ [b]))
        else Ok (Some ret)
      else if (bits >=? frombits)
              || negb (Z.land (Z.shiftl acc (tobits - bits)) maxv =? 0)
      then Ok None
      else Ok (Some ret)
  end.

(** A value [_convertbits] refuses: negative, or wider than [frombits]. *)
Definition out_of_range (frombits value : Z) : bool :=
  (value <? 0) || negb (Z.shiftr value frombits =? 0).

(** The number a list of 5-bit words spells, most significant word first. *)
Definition words_value (ws : list Z) : Z :=
  fold_left (fun acc w => acc * 32 + w) ws 0.

Section Payload.
Context `{PyLib}.

Definition _nip19_payload (bech32_str : list Z) : result (list Z * list byte) :=
  match _bech32_decode_to_words bech32_str with
  | None => Raise (ValueError "Invalid bech32 string")
  | Some (hrp, words) =>
      b ← _convertbits words 5 8 false;
      match b with
      | None => Raise (ValueError "Invalid bech32 payload conversion")
      | Some b => Ok (hrp, b)
      end
  end.

End Payload.

End Bech32.

(** ** Runtime helpers with a fixed meaning *)

Definition startswith (s prefix : list Z) : bool :=
  bool_decide (take (length prefix) s = prefix).

Fixpoint lstrip_char (c : Z) (s : list Z) : list Z :=
  match s with
  | x :: s' => if x =? c then lstrip_char c s' else s
  | [] => []
  end.

(** [s.rstrip("/")] *)
Definition rstrip_slash (s : list Z) : list Z :=
  reverse (lstrip_char 47 (reverse s)).

(** [os.path.basename] of [posixpath]: what follows the last slash. *)
Definition basename (p : list Z) : list Z :=
  py_slice p (Bech32.rfind p 47 + 1) (len p).

Definition hex_digit (n : Z) : Z :=
  if n <? 10 then 48 + n else 87 + n.

(** [b.hex()] *)
Definition hex (b : list byte) : list Z :=
  flat_map (fun x => [hex_digit (ord_byte x / 16); hex_digit (ord_byte x mod 16)]) b.

(** [int.from_bytes(b, "big", signed=False)] *)
Definition int_from_bytes_big (b : list byte) : Z :=
  fold_left (fun acc x => acc * 256 + ord_byte x) b 0.

Definition cont (b : Z) : bool := (0x80 <=? b) && (b <=? 0xBF).
Definition within (lo hi b : Z) : bool := (lo <=? b) && (b <=? hi).

(** [b.decode("utf-8")] with the default strict error handler: [None] is
    [UnicodeDecodeError]. Overlong forms, surrogates and code points above
    U+10FFFF are rejected. *)
Fixpoint utf8_decode_ints (b : list Z) : option (list Z) :=
  match b with
  | [] => Some []
  | b0 :: r0 =>
      if b0 <? 0x80 then cons b0 <$> utf8_decode_ints r0
      else match r0 with
      | [] => None
      | b1 :: r1 =>
          if within 0xC2 0xDF b0 then
            if cont b1
            then cons ((b0 - 0xC0) * 64 + (b1 - 0x80)) <$> utf8_decode_ints r1
            else None
          else match r1 with
          | [] => None
          | b2 :: r2 =>
              if within 0xE0 0xEF b0 then
                if (if b0 =? 0xE0 then within 0xA0 0xBF b1
                    else if b0 =? 0xED then within 0x80 0x9F b1
                    else cont b1) && cont b2
                then cons ((b0 - 0xE0) * 4096 + (b1 - 0x80) * 64 + (b2 - 0x80))
                       <$> utf8_decode_ints r2
                else None
              else match r2 with
              | [] => None
              | b3 :: r3 =>
                  if within 0xF0 0xF4 b0 then
                    if (if b0 =? 0xF0 then within 0x90 0xBF b1
                        else if b0 =? 0xF4 then within 0x80 0x8F b1
                        else cont b1) && cont b2 && cont b3
                    then cons ((b0 - 0xF0) * 262144 + (b1 - 0x80) * 4096
                               + (b2 - 0x80) * 64 + (b3 - 0x80))
                           <$> utf8_decode_ints r3
                    else None
                  else None
              end
          end
      end
  end.

Definition utf8_decode (b : list byte) : option (list Z) :=
  utf8_decode_ints (map ord_byte b).

(** ** NIP-19 identifiers: [decode_nprofile], [decode_naddr] *)

Module Nip19.
Import TLV Bech32.

Section WithLib.
Context `{PyLib}.

Definition _strip_wrappers (s : list Z) : list Z :=
  let s := str_strip s in
  if bool_decide (s = []) then s
  else
    let s := if startswith (str_lower s) (lit "nostr:") then drop 6 s else s in
    match urlparse s with
    | Ok u =>
        if (bool_decide (scheme u = lit "http")
            || bool_decide (scheme u = lit "https"))
           && negb (bool_decide (path u = []))
        then
          let last := basename (rstrip_slash (path u)) in
          if re_token_fullmatch last then last else s
        else s
    | _ => s
    end.

Definition _find_candidate_token (s : list Z) : list Z :=
  let s := str_strip s in
  match re_token_search s with
  | Some m => m
  | None =>
      match re_hex64_search s with
      | Some m2 => str_lower m2
      | None => s
      end
  end.

(** [for r in ...: try: out.append(r.decode("utf-8")) except: continue] *)
Fixpoint decode_relays (raw : list (list byte)) (rels : list (list Z))
    : list (list Z) :=
  match raw with
  | [] => rels
  | r :: raw' =>
      match utf8_decode r with
      | Some u => decode_relays raw' (rels ++ [u])
      | None => decode_relays raw' rels
      end
  end.

Definition decode_nprofile (nprofile : list Z)
    : result (list Z * list (list Z)) :=
  let s := _strip_wrappers nprofile in
  let s := _find_candidate_token s in
  if negb (startswith (str_lower s) (lit "nprofile1")) then
    Raise (ValueError "Not an nprofile")
  else
    '(hrp, payload) ← _nip19_payload (str_lower s);
    if bool_decide (hrp ≠ lit "nprofile") then
      Raise (ValueError "Invalid nprofile bech32")
    else
      tlvs ← _parse_tlvs payload;
      let pk_items := default [] (tlvs !! 0) in
      match pk_items with
      | [] => Raise (ValueError "nprofile missing pubkey (TLV 0 len 32)")
      | pk :: _ =>
          if negb (len pk =? 32) then
            Raise (ValueError "nprofile missing pubkey (TLV 0 len 32)")
          else
            let pk_hex := hex pk in
            let relays := decode_relays (default [] (tlvs !! 1)) [] in
            Ok (pk_hex, relays)
      end.

Definition decode_naddr (naddr : list Z)
    : result (Z * list Z * list Z * list (list Z)) :=
  let s := _strip_wrappers naddr in
  let s := _find_candidate_token s in
  if negb (startswith (str_lower s) (lit "naddr1")) then
    Raise (ValueError "Not an naddr")
  else
    '(hrp, payload) ← _nip19_payload (str_lower s);
    if bool_decide (hrp ≠ lit "naddr") then
      Raise (ValueError "Invalid naddr bech32")
    else
      tlvs ← _parse_tlvs payload;
      let ids := default [] (tlvs !! 0) in
      match ids with
      | [] => Raise (ValueError "naddr missing identifier (TLV 0)")
      | id0 :: _ =>
          match utf8_decode id0 with
          | None =>
              Raise (ValueError "naddr identifier (TLV 0) is not valid UTF-8")
          | Some ident =>
              let authors := default [] (tlvs !! 2) in
              match authors with
              | [] =>
                  Raise (ValueError "naddr missing author pubkey (TLV 2 len 32)")
              | a0 :: _ =>
                  if negb (len a0 =? 32) then
                    Raise (ValueError
                             "naddr missing author pubkey (TLV 2 len 32)")
                  else
                    let pk_hex := hex a0 in
                    let kinds := default [] (tlvs !! 3) in
                    match kinds with
                    | [] => Raise (ValueError "naddr missing kind (TLV 3 len 4)")
                    | k0 :: _ =>
                        if negb (len k0 =? 4) then
                          Raise (ValueError "naddr missing kind (TLV 3 len 4)")
                        else
                          let kind := int_from_bytes_big k0 in
                          let rels_raw := default [] (tlvs !! 1) in
                          let rels := decode_relays rels_raw [] in
                          Ok (kind, pk_hex, ident, rels)
                    end
              end
          end
      end.

End WithLib.

(** A lower-case hexadecimal digit. *)
Definition is_hex_lower (c : Z) : bool :=
  ((48 <=? c) && (c <=? 57)) || ((97 <=? c) && (c <=? 102)).

(** What [decode_nprofile] makes of the records of a payload. *)
Definition nprofile_of_records (rs : list (Z * list byte))
    : result (list Z * list (list Z)) :=
  match values_of 0 rs with
  | pk :: _ =>
      if len pk =? 32
      then Ok (hex pk, omap utf8_decode (values_of 1 rs))
      else Raise (ValueError "nprofile missing pubkey (TLV 0 len 32)")
  | [] => Raise (ValueError "nprofile missing pubkey (TLV 0 len 32)")
  end.

(** What [decode_naddr] makes of the records of a payload. *)
Definition naddr_of_records (rs : list (Z * list byte))
    : result (Z * list Z * list Z * list (list Z)) :=
  match values_of 0 rs with
  | [] => Raise (ValueError "naddr missing identifier (TLV 0)")
  | id0 :: _ =>
      match utf8_decode id0 with
      | None => Raise (ValueError "naddr identifier (TLV 0) is not valid UTF-8")
      | Some ident =>
          match values_of 2 rs with
          | a0 :: _ =>
              if len a0 =? 32 then
                match values_of 3 rs with
                | k0 :: _ =>
                    if len k0 =? 4
                    then Ok (int_from_bytes_big k0, hex a0, ident,
                             omap utf8_decode (values_of 1 rs))
                    else Raise (ValueError "naddr missing kind (TLV 3 len 4)")
                | [] => Raise (ValueError "naddr missing kind (TLV 3 len 4)")
                end
              else Raise (ValueError "naddr missing author pubkey (TLV 2 len 32)")
          | [] => Raise (ValueError "naddr missing author pubkey (TLV 2 len 32)")
          end
      end
  end.

End Nip19.

(** ** The HTTP client: [http_request] *)

Module Http.

Record SimpleResponse := {
  status_code : Z;
  headers : gmap (list Z) (list Z);
  content : list byte
}.

(** [urllib.request.Request(url=, data=, headers=, method=)] *)
Record Request := {
  req_url : list Z;
  req_data : option (list byte);
  req_headers : gmap (list Z) (list Z);
  req_method : list Z
}.

(** What a call leaves behind that can be observed from outside: the
    requests handed to [urlopen] and the [asyncio.sleep] delays, in seconds. *)
Inductive event : Type :=
| Urlopen (req : Request)
| Sleep (seconds : Qc).

(** What one exchange with the network ends in. The 60 second timeout of
    [urlopen] turns a silent peer into an exception. *)
Inductive reply : Type :=
| Response (resp : SimpleResponse)
| Failure (e : exn).

(** The network as the client sees it. [urlopen_do] is [Request(...)]
    followed by the whole of [_do]: [urlopen(req, timeout=60)],
    [resp.read()], [resp.getcode()] and the lower-cased response headers, or
    the exception that came out of them. [token_hex n] is
    [secrets.token_hex(n)]. *)
Class Network (W : Type) := {
  urlopen_do : Request -> W -> reply * W;
  token_hex : Z -> W -> list Z * W
}.

Record world (W : Type) := World { net : W; log : list event }.
Arguments World {W} net log.
Arguments net {W} w.
Arguments log {W} w.

Definition utf8_encode_char (c : Z) : result (list Z) :=
  if (c <? 0) || (0x10FFFF <? c) || ((0xD800 <=? c) && (c <=? 0xDFFF))
  then Raise (LibraryError "UnicodeEncodeError")
  else if c <? 0x80 then Ok [c]
  else if c <? 0x800 then Ok [0xC0 + c / 64; 0x80 + c mod 64]
  else if c <? 0x10000 then
    Ok [0xE0 + c / 4096; 0x80 + (c / 64) mod 64; 0x80 + c mod 64]
  else
    Ok [0xF0 + c / 262144; 0x80 + (c / 4096) mod 64;
        0x80 + (c / 64) mod 64; 0x80 + c mod 64].

Definition byte_of_Z (x : Z) : byte :=
  default Byte.x00 (Byte.of_N (Z.to_N x)).

(** [s.encode()] *)
Fixpoint encode (s : list Z) : result (list byte) :=
  match s with
  | [] => Ok []
  | c :: s' =>
      bs ← utf8_encode_char c;
      rest ← encode s';
      Ok (map byte_of_Z bs ++ rest)
  end.

Definition half : Qc := Q2Qc (1 # 2).

(** [(2 ** attempt) * 0.5] *)
Definition backoff (attempt : Z) : Qc := (Qc_of_Z (2 ^ attempt) * half)%Qc.

Definition requests (l : list event) : list Request :=
  omap (fun ev => match ev with Urlopen r => Some r | _ => None end) l.


Section Client.
Context `{PyLib} {W : Type} `{Network W}.

Definition _convert_headers (headers : option (gmap (list Z) (list Z)))
    : gmap (list Z) (list Z) :=
  default ∅ headers.

Definition _add_default_headers (method url : list Z)
    (h : gmap (list Z) (list Z)) : gmap (list Z) (list Z) :=
  let lower : gset (list Z) := set_map str_lower (dom h) in
  let h := if bool_decide (lit "user-agent" ∉ lower)
           then <[ lit "User-Agent" :=
                   lit "scrutiny-cli/0.1 (+https://github.com/)" ]> h
           else h in
  let h := if bool_decide (lit "accept" ∉ lower)
           then <[ lit "Accept" := lit "*/*" ]> h else h in
  if bool_decide (str_upper method = lit "GET")
     && bool_decide (lit "referer" ∉ lower)
  then <[ lit "Referer" := url ]> h else h.

Definition crlf : list Z := [13; 10].
Definition dquote : Z := 34.

(** [for field_name, (filename, file_bytes) in files.items()] *)
Fixpoint multipart_parts (boundary : list Z)
    (files : list (list Z * (list Z * list byte))) (parts : list (list byte))
    : result (list (list byte)) :=
  match files with
  | [] => Ok parts
  | (field_name, (filename, file_bytes)) :: files' =>
      p1 ← encode (lit "--" ++ boundary ++ crlf);
      let disposition :=
        lit "Content-Disposition: form-data; name=" ++ [dquote] ++ field_name
        ++ [dquote] ++ lit "; filename=" ++ [dquote] ++ filename ++ [dquote]
        ++ crlf in
      p2 ← encode disposition;
      p3 ← encode (lit "Content-Type: application/octet-stream" ++ crlf ++ crlf);
      p5 ← encode crlf;
      multipart_parts boundary files'
        (parts ++ [p1; p2; p3; file_bytes; p5])
  end.

Definition set_default_content_type (h : gmap (list Z) (list Z))
    : gmap (list Z) (list Z) :=
  if bool_decide (h !! lit "Content-Type" = None)
  then <[ lit "Content-Type" := lit "application/octet-stream" ]> h
  else h.

(** The body of the [try] up to and including [Request(...)]. *)
Definition build_request (method url : list Z)
    (headers : option (gmap (list Z) (list Z))) (data : option (list byte))
    (files : option (list (list Z * (list Z * list byte)))) (w : W)
    : result Request * W :=
  let req_headers := _convert_headers headers in
  let req_headers := _add_default_headers method url req_headers in
  if bool_decide (str_upper method = lit "GET") then
    (Ok {| req_url := url; req_data := None; req_headers := req_headers;
           req_method := str_upper method |}, w)
  else
    match files with
    | Some (f :: fs) =>
        let '(tok, w) := token_hex 12 w in
        let boundary := lit "----ScrutinyBoundary" ++ tok in
        let req_headers :=
          <[ lit "Content-Type" :=
             lit "multipart/form-data; boundary=" ++ boundary ]> req_headers in
        (parts ← multipart_parts boundary (f :: fs) [];
         last ← encode (lit "--" ++ boundary ++ lit "--" ++ crlf);
         Ok {| req_url := url; req_data := Some (concat (parts ++ [last]));
               req_headers := req_headers; req_method := str_upper method |},
         w)
    | _ =>
        (* both branches of [if data is None] set the same default header *)
        let body := default [] data in
        (Ok {| req_url := url; req_data := Some body;
               req_headers := set_default_content_type req_headers;
               req_method := str_upper method |}, w)
    end.

(** One pass through the [try] block. *)
Definition attempt_once (method url : list Z)
    (headers : option (gmap (list Z) (list Z))) (data : option (list byte))
    (files : option (list (list Z * (list Z * list byte)))) (w : world W)
    : result SimpleResponse * world W :=
  let '(r, n) := build_request method url headers data files (net w) in
  match r with
  | Ok req =>
      let '(r, n) := urlopen_do req n in
      let w := World n (log w ++ [Urlopen req]) in
      match r with
      | Response resp =>
          if (status_code resp >=? 500) || (status_code resp =? 429)
          then (Raise (HTTPStatus (status_code resp)), w)
          else (Ok resp, w)
      | Failure e => (Raise e, w)
      end
  | Raise e => (Raise e, World n (log w))
  | Diverge => (Diverge, World n (log w))
  end.

(** [await asyncio.sleep(d)] *)
Definition sleep (d : Qc) (w : world W) : world W :=
  World (net w) (log w ++ [Sleep d]).

(** [while attempt < max_retries] *)
Fixpoint retry_loop (fuel : nat) (method url : list Z)
    (headers : option (gmap (list Z) (list Z))) (data : option (list byte))
    (files : option (list (list Z * (list Z * list byte))))
    (max_retries attempt : Z) (last_exc : option exn) (w : world W)
    : result SimpleResponse * world W :=
  match fuel with
  | O => (Diverge, w)
  | S fuel' =>
      if attempt <? max_retries then
        match attempt_once method url headers data files w with
        | (Ok resp, w) => (Ok resp, w)
        | (Raise e, w) =>
            let last_exc := Some e in
            let w := sleep (backoff attempt) w in
            retry_loop fuel' method url headers data files
              max_retries (attempt + 1) last_exc w
        | (Diverge, w) => (Diverge, w)
        end
      else
        (Raise (default (RuntimeError "HTTP request failed") last_exc), w)
  end.

(** Attempts in a row, numbered from [a], in the words of the retry policy:
    each is one pass through the [try]; a failed one is followed by its
    backoff sleep and a successful one ends the row. *)
Inductive attempts (method url : list Z)
    (headers : option (gmap (list Z) (list Z))) (data : option (list byte))
    (files : option (list (list Z * (list Z * list byte))))
    : Z -> world W -> list (result SimpleResponse) -> world W -> Prop :=
| attempts_none a w : attempts method url headers data files a w [] w
| attempts_returned a w resp w1 :
    attempt_once method url headers data files w = (Ok resp, w1) ->
    attempts method url headers data files a w [Ok resp] w1
| attempts_retried a w e w1 outs w2 :
    attempt_once method url headers data files w = (Raise e, w1) ->
    attempts method url headers data files (a + 1) (sleep (backoff a) w1)
      outs w2 ->
    attempts method url headers data files a w (Raise e :: outs) w2.

Definition valid_method (method : list Z) : bool :=
  bool_decide (str_upper method = lit "GET")
  || bool_decide (str_upper method = lit "POST").

Definition http_request (method url : list Z)
    (headers : option (gmap (list Z) (list Z))) (data : option (list byte))
    (files : option (list (list Z * (list Z * list byte))))
    (max_retries : Z) (w : world W) : result SimpleResponse * world W :=
  if negb (valid_method method)
  then (Raise AssertionError, w)
  else retry_loop (S (Z.to_nat max_retries)) method url headers data files
         max_retries 0 None w.

(** How a call that was allowed [n] passes ends, given the outcomes of the
    passes it made: with the response of the last one, with the exception
    of the last one when all [n] have failed, or with the exception held in
    [last_exc] when there was none. *)
Definition outcome_of (n : Z) (outs : list (result SimpleResponse))
    (last_exc : option exn) (w : world W)
    (run : result SimpleResponse * world W) (w' : world W) : Prop :=
  match last outs with
  | Some (Ok resp) => run = (Ok resp, w')
  | Some (Raise e) => Z.of_nat (length outs) = n /\ run = (Raise e, w')
  | Some Diverge => False
  | None =>
      n <= 0 /\ w' = w /\
      run = (Raise (default (RuntimeError "HTTP request failed") last_exc), w)
  end.

End Client.
End Http.

(** ** The relay proof-of-work probe: [fetch_relay_min_pow] *)

Module Probe.
Import Http.

(** A Python value for which [isinstance(v, int)] holds: an [int] or a
    [bool]. Comparison and equality go through the number it stands for. *)
Inductive pyint : Type :=
| PInt (z : Z)
| PBool (b : bool).

Definition int_value (v : pyint) : Z :=
  match v with
  | PInt z => z
  | PBool b => if b then 1 else 0
  end.

(** The [entry] dictionary with its four fixed keys. *)
Record entry := Entry {
  e_url : list Z;
  reachable : bool;
  min_pow : option pyint;
  forced : bool
}.

Definition keys_to_check : list (list Z) :=
  [lit "min_pow_difficulty"; lit "minPoW"; lit "minPoWDifficulty"; lit "pow";
   lit "pow_difficulty"; lit "required_pow"; lit "min_difficulty";
   lit "difficulty"].

(** [bool(v)] *)
Definition truthy (v : json) : bool :=
  match v with
  | JNull => false
  | JBool b => b
  | JInt z => negb (z =? 0)
  | JFloat q => negb (bool_decide (q = 0%Qc))
  | JStr s => negb (bool_decide (s = []))
  | JArr l => match l with [] => false | _ => true end
  | JObj m => negb (bool_decide (dom m = (∅ : gset (list Z))))
  end.

(** [d.get(k)]: [None] of Python is [JNull]; only a [dict] has [get]. *)
Definition get (d : json) (k : list Z) : result json :=
  match d with
  | JObj m => Ok (default JNull (m !! k))
  | _ => Raise AttributeError
  end.

Definition as_int (v : json) : option pyint :=
  match v with
  | JInt z => Some (PInt z)
  | JBool b => Some (PBool b)
  | _ => None
  end.

(** [max(best, v)] keeps [best] unless [v] is greater. *)
Definition py_max (best v : pyint) : pyint :=
  if int_value best <? int_value v then v else best.

(** [for k in keys_to_check] *)
Fixpoint best_loop (lim : json) (keys : list (list Z)) (best : option pyint)
    : result (option pyint) :=
  match keys with
  | [] => Ok best
  | k :: keys' =>
      v ← get lim k;
      match as_int v with
      | Some v =>
          best_loop lim keys'
            (Some (match best with None => v | Some b => py_max b v end))
      | None => best_loop lim keys' best
      end
  end.

Section WithNet.
Context `{PyLib} {W : Type} `{Network W}.

Definition convert_ws_to_http (url : list Z) : option (list Z) :=
  match urlparse url with
  | Ok p =>
      if bool_decide (scheme p = lit "wss")
      then Some (lit "https://" ++ netloc p ++ path p)
      else if bool_decide (scheme p = lit "ws")
      then Some (lit "http://" ++ netloc p ++ path p)
      else if bool_decide (scheme p = lit "https")
              || bool_decide (scheme p = lit "http")
      then Some url
      else None
  | _ => None
  end.

(** [resp.json()] *)
Definition response_json (resp : SimpleResponse) : result json :=
  match utf8_decode (content resp) with
  | Some s => json_loads s
  | None => Raise (LibraryError "UnicodeDecodeError")
  end.

(** The part of the [try] that follows a response with status 200; it
    returns the new [reachable] and [min_pow] of the entry. *)
Definition read_limits (resp : SimpleResponse) : result (option pyint) :=
  info ← (if bool_decide (content resp = []) then Ok (JObj ∅)
          else response_json resp);
  a ← get info (lit "limitation");
  lim ← (if truthy a then Ok a
         else b ← get info (lit "limits");
              if truthy b then Ok b else Ok (JObj ∅));
  best_loop lim keys_to_check None.

Definition accept_header : gmap (list Z) (list Z) :=
  {[ lit "Accept" := lit "application/nostr+json" ]}.

(** One round of [for rurl in relay_urls]: the entry appended to [diag] and
    the new [max_pow]. *)
Definition probe_one (rurl : list Z) (max_pow : pyint) (w : world W)
    : entry * pyint * world W :=
  let entry := Entry rurl false None false in
  match convert_ws_to_http rurl with
  | None => (entry, max_pow, w)
  | Some http =>
      match http_request (lit "GET") http (Some accept_header) None None 3 w with
      | (Ok resp, w) =>
          if negb (status_code resp =? 200) then (entry, max_pow, w)
          else
            match read_limits resp with
            | Ok best =>
                let entry := Entry rurl true best false in
                let max_pow :=
                  match best with
                  | Some b => if int_value b >? int_value max_pow
                              then b else max_pow
                  | None => max_pow
                  end in
                (entry, max_pow, w)
            | _ => (entry, max_pow, w)
            end
      | (_, w) => (entry, max_pow, w)
      end
  end.

Fixpoint probe_loop (relay_urls : list (list Z)) (max_pow : pyint)
    (diag : list entry) (w : world W) : pyint * list entry * world W :=
  match relay_urls with
  | [] => (max_pow, diag, w)
  | rurl :: rest =>
      let '(entry, max_pow, w) := probe_one rurl max_pow w in
      probe_loop rest max_pow (diag ++ [entry]) w
  end.

(** [e["forced"] = (e.get("min_pow") == max_pow and
    isinstance(e.get("min_pow"), int))] *)
Definition mark_forced (max_pow : pyint) (e : entry) : entry :=
  Entry (e_url e) (reachable e) (min_pow e)
    (match min_pow e with
     | Some v => int_value v =? int_value max_pow
     | None => false
     end).

Definition fetch_relay_min_pow (relay_urls : list (list Z)) (w : world W)
    : pyint * list entry * world W :=
  let '(max_pow, diag, w) := probe_loop relay_urls (PInt 0) [] w in
  (max_pow, map (mark_forced max_pow) diag, w).

(** [max_pow] against the entries gathered so far: it is not negative, no
    entry asks for more, and when positive it is what some entry asks for. *)
Definition covered (mp : pyint) (diag : list entry) : Prop :=
  0 <= int_value mp
  /\ (forall e v, e ∈ diag -> min_pow e = Some v -> int_value v <= int_value mp)
  /\ (0 < int_value mp -> exists e, e ∈ diag /\ min_pow e = Some mp).

(** What the probe asks a relay: a body-less [GET] of the relay's HTTP
    address that accepts [application/nostr+json]. *)
Definition probe_request (rurl : list Z) (r : Request) : Prop :=
  convert_ws_to_http rurl = Some (req_url r)
  /\ req_method r = lit "GET"
  /\ req_data r = None
  /\ req_headers r !! lit "Accept" = Some (lit "application/nostr+json").

End WithNet.
End Probe.

(** ** Resolving an address over relays: [resolve_naddr_to_event_id] *)

Module Resolve.
Import Nip19.

(** [Filter().author(a).kind(k).identifier(d).limit(n)] *)
Record Filter (PK KD : Type) := {
  f_author : PK;
  f_kind : KD;
  f_identifier : list Z;
  f_limit : Z
}.
Arguments f_author {PK KD} f.
Arguments f_kind {PK KD} f.
Arguments f_identifier {PK KD} f.
Arguments f_limit {PK KD} f.

(** The calls made on the SDK client, in order. *)
Inductive call (PK KD : Type) : Type :=
| NewClient
| AddRelay (r : list Z)
| Connect
| FetchEvents (f : Filter PK KD) (timeout_seconds : Z)
| Disconnect.
Arguments NewClient {PK KD}.
Arguments AddRelay {PK KD} r.
Arguments Connect {PK KD}.
Arguments FetchEvents {PK KD} f timeout_seconds.
Arguments Disconnect {PK KD}.

(** The protocol SDK ([nostr_sdk]) as the function sees it. [W] is the state
    of the relays and of the client; every call may raise. *)
Class Sdk (W PK KD Events Event : Type) := {
  client_new : W -> result unit * W;
  add_relay : list Z -> W -> result unit * W;
  connect : W -> result unit * W;
  public_key_parse : list Z -> result PK;
  kind_new : Z -> result KD;
  fetch_events : Filter PK KD -> Z -> W -> result Events * W;
  has_as_vec : Events -> bool;
  (** [list(events.as_vec())] and [list(events)] *)
  as_vec_list : Events -> result (list Event);
  iter_list : Events -> result (list Event);
  (** [ev.id().to_hex()] *)
  event_id_hex : Event -> result (list Z);
  has_disconnect : bool;
  disconnect : W -> result unit * W
}.

Section WithSdk.
Context `{PyLib} {W PK KD Events Event : Type} `{Sdk W PK KD Events Event}.

Record state := State { sdk : W; calls : list (call PK KD) }.

Definition record (c : call PK KD) (s : state) (w : W) : state :=
  State w (calls s ++ [c]).

(** [for r in relays: try: await client.add_relay(r) except Exception: pass] *)
Fixpoint add_relays (relays : list (list Z)) (s : state) : state :=
  match relays with
  | [] => s
  | r :: rest =>
      let '(_, w) := add_relay r (sdk s) in
      add_relays rest (record (AddRelay r) s w)
  end.

(** The events as a list, whatever the SDK version. *)
Definition events_to_list (events : Events) : list Event :=
  if has_as_vec events then
    match as_vec_list events with Ok l => l | _ => [] end
  else
    match iter_list events with Ok l => l | _ => [] end.

(** The body of the [try]. *)
Definition query (kind : Z) (pk_hex ident : list Z) (relays : list (list Z))
    (s : state) : result (list Z) * state :=
  let s := add_relays relays s in
  let '(r, w) := connect (sdk s) in
  let s := record Connect s w in
  match r with
  | Ok _ =>
      match public_key_parse pk_hex with
      | Ok pk =>
          match kind_new kind with
          | Ok kd =>
              let f := {| f_author := pk; f_kind := kd;
                          f_identifier := ident; f_limit := 1 |} in
              let '(r, w) := fetch_events f 8 (sdk s) in
              let s := record (FetchEvents f 8) s w in
              match r with
              | Ok events =>
                  match events_to_list events with
                  | [] =>
                      (Raise (RuntimeError
                                "No event found for naddr on provided relays"),
                       s)
                  | ev :: _ => (event_id_hex ev, s)
                  end
              | Raise e => (Raise e, s)
              | Diverge => (Diverge, s)
              end
          | Raise e => (Raise e, s)
          | Diverge => (Diverge, s)
          end
      | Raise e => (Raise e, s)
      | Diverge => (Diverge, s)
      end
  | Raise e => (Raise e, s)
  | Diverge => (Diverge, s)
  end.

(** The [finally] clause. *)
Definition finally_disconnect (s : state) : state :=
  if has_disconnect then
    let '(_, w) := disconnect (sdk s) in record Disconnect s w
  else s.

Definition resolve_naddr_to_event_id (naddr : list Z)
    (relay_urls : list (list Z)) (w : W) : result (list Z) * state :=
  match decode_naddr naddr with
  | Ok (kind, pk_hex, ident, embedded_relays) =>
      let relays :=
        match embedded_relays with [] => relay_urls | _ => embedded_relays end in
      let '(r, w) := client_new w in
      let s := State w [NewClient] in
      match r with
      | Ok _ =>
          let '(r, s) := query kind pk_hex ident relays s in
          (r, finally_disconnect s)
      | Raise e => (Raise e, s)
      | Diverge => (Diverge, s)
      end
  | Raise e => (Raise e, State w [])
  | Diverge => (Diverge, State w [])
  end.

End WithSdk.
End Resolve.

(** ** CPE 2.3 names: [normalize_cpe23], [validate_cpe23] *)

Module Cpe.

(** [s.split(sep)] for a one-character separator. *)
Fixpoint split (sep : Z) (s : list Z) : list (list Z) :=
  match s with
  | [] => [[]]
  | x :: s' =>
      if x =? sep then [] :: split sep s'
      else match split sep s' with
           | p :: ps => (x :: p) :: ps
           | [] => [[x]]
           end
  end.

(** [sep.join(parts)] *)
Fixpoint join (sep : Z) (parts : list (list Z)) : list Z :=
  match parts with
  | [] => []
  | [p] => p
  | p :: ps => p ++ sep :: join sep ps
  end.

Definition colon : Z := 58.

Definition normalize_cpe23 (cpe : list Z) : result (list Z) :=
  if bool_decide (cpe = []) then Raise (ValueError "Empty CPE string")
  else
    let parts := split colon cpe in
    p0 ← py_index parts 0;
    if bool_decide (p0 ≠ lit "cpe")
    then Raise (ValueError "CPE must start with 'cpe:'")
    else if len parts <? 3
    then Raise (ValueError
           "CPE must include version and part fields (e.g., cpe:2.3:a:...)")
    else
      let parts :=
        if len parts <? 13
        then parts ++ replicate (Z.to_nat (13 - len parts)) (lit "*")
        else parts in
      if negb (len parts =? 13)
      then Raise (ValueError "CPE must have 13 colon-separated fields")
      else Ok (join colon parts).

Definition validate_cpe23 (cpe : list Z) : result unit :=
  if bool_decide (cpe = []) then Raise (ValueError "Empty CPE string")
  else
    let parts := split colon cpe in
    if negb (len parts =? 13)
    then Raise (ValueError
           "CPE must have 13 colon-separated fields starting with 'cpe:'")
    else
      p0 ← py_index parts 0;
      if bool_decide (p0 ≠ lit "cpe")
      then Raise (ValueError
             "CPE must have 13 colon-separated fields starting with 'cpe:'")
      else
        cpe_version ← py_index parts 1;
        part ← py_index parts 2;
        if bool_decide (cpe_version = [])
        then Raise (ValueError "CPE version missing (e.g., 2.3)")
        else if negb (bool_decide (part = lit "a")
                      || bool_decide (part = lit "o")
                      || bool_decide (part = lit "h"))
        then Raise (ValueError
               "CPE part must be one of: a (app), o (OS), h (hardware)")
        else Ok ().

End Cpe.

(** ** The relay list typed by the user: [parse_relays_input] *)

Module Relays.
Section WithLib.
Context `{PyLib}.





End WithLib.
End Relays.

(** ** A runtime to evaluate with

    An implementation of the library interface for ASCII text, used where a
    statement is evaluated on a concrete input: the case mappings change the
    ASCII letters only, [urlparse] follows [urllib.parse.urlsplit] without
    its validation of the network location, the regular expressions are
    matched by hand, and [json.loads] knows the documents of a table. *)

Module Runtime.
Import Bech32.

Definition is_space (c : Z) : bool :=
  within 9 13 c || within 28 32 c || (c =? 0x85) || (c =? 0xA0)
  || (c =? 0x1680) || within 0x2000 0x200A c || within 0x2028 0x2029 c
  || (c =? 0x202F) || (c =? 0x205F) || (c =? 0x3000).

Fixpoint drop_while (p : Z -> bool) (s : list Z) : list Z :=
  match s with
  | x :: s' => if p x then drop_while p s' else s
  | [] => []
  end.

Fixpoint take_while (p : Z -> bool) (s : list Z) : list Z :=
  match s with
  | x :: s' => if p x then x :: take_while p s' else []
  | [] => []
  end.

Definition strip (s : list Z) : list Z :=
  reverse (drop_while is_space (reverse (drop_while is_space s))).

Definition is_digit (c : Z) : bool := within 48 57 c.
Definition is_lower (c : Z) : bool := within 97 122 c.
Definition is_upper (c : Z) : bool := within 65 90 c.
Definition is_hex (c : Z) : bool :=
  is_digit c || within 97 102 c || within 65 70 c.

(** [s.find(c)]: the lowest index, or -1. *)
Fixpoint find_from (s : list Z) (c : Z) (i : Z) : Z :=
  match s with
  | [] => -1
  | x :: s' => if x =? c then i else find_from s' c (i + 1)
  end.
Definition find (s : list Z) (c : Z) : Z := find_from s c 0.

Definition scheme_char (c : Z) : bool :=
  is_digit c || is_lower c || is_upper c
  || (c =? 43) || (c =? 45) || (c =? 46).

Definition uses_params : list (list Z) :=
  [[]; lit "ftp"; lit "hdl"; lit "prospero"; lit "http"; lit "imap";
   lit "https"; lit "shttp"; lit "rtsp"; lit "rtspu"; lit "sip"; lit "sips";
   lit "mms"; lit "sftp"; lit "tel"].

Definition until (stop : Z -> bool) (s : list Z) : list Z :=
  take_while (fun c => negb (stop c)) s.

Definition url_split (url : list Z) : result url_parts :=
  let url := drop_while (fun c => c <=? 32) url in
  let url := filter (fun c => ¬ (c = 9 ∨ c = 10 ∨ c = 13)) url in
  let i := find url 58 in
  let '(sch, url) :=
    if (0 <? i)
       && match url with c :: _ => is_lower c || is_upper c | [] => false end
       && forallb scheme_char (py_slice url 0 i)
    then (map ascii_lower (py_slice url 0 i), py_slice url (i + 1) (len url))
    else ([], url) in
  let '(loc, url) :=
    if startswith url (lit "//") then
      let loc := until (fun c => (c =? 47) || (c =? 63) || (c =? 35))
                   (drop 2 url) in
      (loc, drop (2 + length loc) url)
    else ([], url) in
  let url := until (fun c => c =? 35) url in
  let url := until (fun c => c =? 63) url in
  let url :=
    if bool_decide (sch ∈ uses_params) && (0 <=? find url 59) then
      let j := Z.max 0 (rfind url 47) in
      let k := find (py_slice url j (len url)) 59 in
      if k <? 0 then url else py_slice url 0 (j + k)
    else url in
  Ok {| scheme := sch; netloc := loc; path := url |}.

Definition token_prefixes : list (list Z) :=
  [lit "nsec"; lit "npub"; lit "nprofile"; lit "nevent"; lit "naddr";
   lit "note"].

Definition body_char (ignore_case : bool) (c : Z) : bool :=
  is_digit c || is_lower c || (ignore_case && is_upper c).

(** A match of [(n(sec|pub|profile|event|addr)|note)1[0-9a-z]+] at the start
    of [s]. *)
Definition token_at (ignore_case : bool) (s : list Z) : option (list Z) :=
  let fold := if ignore_case then map ascii_lower else id in
  match
    List.find (fun p => startswith (fold s) (p ++ [one])) token_prefixes
  with
  | Some p =>
      let body := take_while (body_char ignore_case) (drop (length p + 1) s) in
      match body with
      | [] => None
      | _ => Some (take (length p + 1 + length body) s)
      end
  | None => None
  end.

Fixpoint token_search (s : list Z) : option (list Z) :=
  match token_at true s with
  | Some m => Some m
  | None => match s with [] => None | _ :: s' => token_search s' end
  end.

Definition token_fullmatch (s : list Z) : bool :=
  bool_decide (token_at false s = Some s).

Fixpoint hex64_search (s : list Z) : option (list Z) :=
  if (64 <=? len s) && forallb is_hex (take 64 s) then Some (take 64 s)
  else match s with [] => None | _ :: s' => hex64_search s' end.

(** A literal written with ['] where the text has a double quote. *)
Definition quoted (s : string) : list Z :=
  map (fun c => if c =? 39 then 34 else c) (lit s).

Definition json_table : list (list Z * json) :=
  [(lit "{}", JObj ∅);
   (quoted "{'limitation': {'min_pow_difficulty': 15}}",
    JObj {[ lit "limitation" :=
            JObj {[ lit "min_pow_difficulty" := JInt 15 ]} ]});
   (quoted "{'limits': {'pow': 5}}",
    JObj {[ lit "limits" := JObj {[ lit "pow" := JInt 5 ]} ]})].

Definition table_loads (s : list Z) : result json :=
  match List.find (fun d => bool_decide (fst d = s)) json_table with
  | Some d => Ok (snd d)
  | None => Raise (LibraryError "JSONDecodeError")
  end.

(** A network that plays back a list of replies and refuses the connection
    when the list is used up; its random tokens are all zero digits. *)
Definition scripted : Http.Network (list Http.reply) := {|
  Http.urlopen_do := fun _ w =>
    match w with
    | r :: w' => (r, w')
    | [] => (Http.Failure (LibraryError "URLError"), [])
    end;
  Http.token_hex := fun n w => (replicate (Z.to_nat (2 * n)) 48, w)
|}.

Definition ascii : PyLib := {|
  str_lower := map ascii_lower;
  str_upper := map ascii_upper;
  str_strip := strip;
  urlparse := url_split;
  re_token_fullmatch := token_fullmatch;
  re_token_search := token_search;
  re_hex64_search := hex64_search;
  json_loads := table_loads;
  str_lower_printable := fun s _ => eq_refl;
  str_upper_printable := fun s _ => eq_refl
|}.

Definition serving (rs : list Http.reply) : Http.world (list Http.reply) := Http.World rs [].
Definition body (s : string) : list byte := map Http.byte_of_Z (quoted s).
Definition ok_body (s : string) : Http.reply :=
  Http.Response {| Http.status_code := 200; Http.headers := ∅;
                   Http.content := body s |}.
Definition two_relays : list (list Z) :=
  [lit "wss://a.example"; lit "wss://b.example/"].
Definition probed
    : Probe.pyint * list Probe.entry * Http.world (list Http.reply) :=
  Probe.fetch_relay_min_pow (H := ascii) (H0 := scripted) two_relays
    (serving [ok_body "{'limitation': {'min_pow_difficulty': 15}}";
              ok_body "{'limits': {'pow': 5}}"]).
Definition probed_entries : list Probe.entry :=
  [Probe.Entry (lit "wss://a.example") true (Some (Probe.PInt 15)) true;
   Probe.Entry (lit "wss://b.example/") true (Some (Probe.PInt 5)) false].
Definition example_pk : list byte := Http.byte_of_Z <$> seqZ 1 32.
Definition relay_bytes : list byte :=
  Http.byte_of_Z <$> lit "wss://r.example".
Definition naddr_token : list Z :=
  lit "naddr1qqqhsqg0waehxw309aezuetcv9khqmr9qgsqzqsrqszsvpcgpy9qkrqdpc83qygjzv2p29shrqv35xcur50p7gqrqsqqqa28tlajxw".
Definition naddr_records : list (Z * list byte) :=
  [(0, [Byte.x78]); (1, relay_bytes); (2, example_pk);
   (3, [Byte.x00; Byte.x00; Byte.x75; Byte.x47])].
Definition nprofile_two : list Z :=
  lit "nprofile1qqsqzqsrqszsvpcgpy9qkrqdpc83qygjzv2p29shrqv35xcur50p7gqqyz4242424242424242424242424242424242424242424242424250qx5f3".
Definition nprofile_two_records : list (Z * list byte) :=
  [(0, example_pk); (0, replicate 32 Byte.xaa)].
(** The buffer that holds the given records one after the other. *)
Definition buffer_of (rs : list (Z * list byte)) : list byte :=
  flat_map (fun r => Http.byte_of_Z (fst r) :: Http.byte_of_Z (len (snd r))
                     :: snd r) rs.
(** A stand-in for the SDK: the relays hold a list of event ids and answer
    a query with the first [limit] of them; a kind is a 16-bit number. *)
Definition relay_pool
    : Resolve.Sdk (list (list Z)) (list Z) Z (list (list Z)) (list Z) := {|
  Resolve.client_new := fun w => (Ok (), w);
  Resolve.add_relay := fun _ w => (Ok (), w);
  Resolve.connect := fun w => (Ok (), w);
  Resolve.public_key_parse := fun s => Ok s;
  Resolve.kind_new := fun k =>
    if (0 <=? k) && (k <? 65536) then Ok k
    else Raise (LibraryError "OverflowError");
  Resolve.fetch_events := fun f _ w =>
    (Ok (take (Z.to_nat (Resolve.f_limit f)) w), w);
  Resolve.has_as_vec := fun _ => true;
  Resolve.as_vec_list := fun evs => Ok evs;
  Resolve.iter_list := fun evs => Ok evs;
  Resolve.event_id_hex := fun ev => Ok ev;
  Resolve.has_disconnect := true;
  Resolve.disconnect := fun w => (Ok (), w)
|}.
Definition stored_ids : list (list Z) := [lit "e1"; lit "e2"].
Definition short_cpe : list Z := lit "cpe:2.3:a:vendor:product".
Definition padded_cpe : list Z :=
  lit "cpe:2.3:a:vendor:product:*:*:*:*:*:*:*:*".

End Runtime.

(** * Properties *)

(** ** Lists, indices and slices *)

Section ListFacts.
Context {A : Type}.
Implicit Types l : list A.

Lemma len_nonneg l : 0 <= len l.
Proof. unfold len. lia. Qed.

Lemma len_app l1 l2 : len (l1 ++ l2) = len l1 + len l2.
Proof. unfold len. rewrite length_app. lia. Qed.

Lemma len_drop l (n : nat) : Z.of_nat n <= len l -> len (drop n l) = len l - Z.of_nat n.
Proof. unfold len. rewrite length_drop. lia. Qed.

Lemma py_index_ok l (i : Z) x :
  0 <= i -> l !! Z.to_nat i = Some x -> py_index l i = Ok x.
Proof.
  intros Hi Hx. unfold py_index.
  destruct (Z.ltb_spec i 0); [lia|].
  destruct (Z.ltb_spec i 0); [lia|]. by rewrite Hx.
Qed.

Lemma py_slice_inner l (i j : Z) :
  0 <= i -> i <= j -> j <= len l ->
  py_slice l i j = take (Z.to_nat (j - i)) (drop (Z.to_nat i) l).
Proof.
  intros Hi Hij Hj. unfold py_slice, clamp.
  destruct (Z.ltb_spec i 0); [lia|].
  destruct (Z.ltb_spec j 0); [lia|].
  by rewrite !Z.min_l by lia.
Qed.
End ListFacts.

Module TLVFacts.
Import TLV.

Lemma collect_cons r rs tlvs :
  collect (r :: rs) tlvs = collect rs (setdefault_append (fst r) (snd r) tlvs).
Proof. reflexivity. Qed.

Lemma parse_loop_scan (fuel : nat) (payload : list byte) :
  forall (i : nat) tlvs,
    (i <= length payload)%nat ->
    (length payload - i < fuel)%nat ->
    exists rs, scan (drop i payload) rs
               /\ parse_loop fuel payload (Z.of_nat i) tlvs = Ok (collect rs tlvs).
Proof.
  induction fuel as [|fuel IH]; intros i tlvs Hi Hfuel; [lia|].
  cbn [parse_loop].
  destruct (Z.leb_spec (Z.of_nat i + 2) (len payload)) as [Hhdr|Hhdr].
  - unfold len in Hhdr.
    destruct (lookup_lt_is_Some_2 payload i) as [t Ht]; [lia|].
    destruct (lookup_lt_is_Some_2 payload (S i)) as [l Hl]; [lia|].
    rewrite (py_index_ok payload (Z.of_nat i) t) by (rewrite ?Nat2Z.id; done || lia).
    rewrite (py_index_ok payload (Z.of_nat i + 1) l)
      by (try lia; by replace (Z.to_nat (Z.of_nat i + 1)) with (S i) by lia).
    cbn [mbind result_bind].
    rewrite (drop_S _ _ _ Ht), (drop_S _ _ _ Hl).
    destruct (Z.gtb_spec (Z.of_nat i + 2 + ord_byte l) (len payload)) as [Hcut|Hfit].
    + exists []. split; [|done].
      apply scan_truncated. rewrite len_drop; unfold len in *; lia.
    + assert (0 <= ord_byte l) by (unfold ord_byte; lia).
      set (n := Z.to_nat (ord_byte l)).
      unfold len in Hfit.
      destruct (IH (S (S i) + n)%nat
                  (setdefault_append (ord_byte t)
                     (py_slice payload (Z.of_nat i + 2) (Z.of_nat i + 2 + ord_byte l)) tlvs))
        as (rs & Hscan & Hrun); [lia..|].
      rewrite py_slice_inner in * by (unfold len; lia).
      replace (Z.to_nat (Z.of_nat i + 2 + ord_byte l - (Z.of_nat i + 2))) with n in * by lia.
      replace (Z.to_nat (Z.of_nat i + 2)) with (S (S i)) in * by lia.
      exists ((ord_byte t, take n (drop (S (S i)) payload)) :: rs). split.
      * rewrite <- (take_drop n (drop (S (S i)) payload)) at 1.
        apply scan_record.
        -- unfold len. rewrite length_take, length_drop. lia.
        -- by rewrite drop_drop.
      * rewrite collect_cons. cbn [fst snd]. rewrite <- Hrun. f_equal. lia.
  - exists []. split; [|done].
    apply scan_header. rewrite length_drop. unfold len in Hhdr. lia.
Qed.

(** C2. [_parse_tlvs] returns on every buffer, without raising: its result is
    the multi-map of the records [scan] finds, which stops at the first
    missing header or truncated value; on the example buffer the result is
    [{0: [b"abc"], 2: [32 bytes 0x01]}]. *)
Theorem parse_tlvs_scans :
  (forall payload : list byte,
     exists rs, scan payload rs /\ _parse_tlvs payload = Ok (collect rs ∅))
  /\ _parse_tlvs example_buffer
     = Ok {[ 0 := [[Byte.x61; Byte.x62; Byte.x63]];
             2 := [replicate 32 Byte.x01] ]}.
Proof.
  split.
  - intros payload.
    destruct (parse_loop_scan (S (length payload)) payload 0%nat ∅)
      as (rs & Hscan & Hrun); [lia..|].
    exists rs. split; [done|]. exact Hrun.
  - vm_compute. reflexivity.
Qed.

Lemma scan_det payload rs :
  scan payload rs -> forall rs', scan payload rs' -> rs = rs'.
Proof.
  induction 1 as [buf Hlen|t l rest Hcut|t l v rest rs Hv Hscan IH];
    intros rs' Hscan'.
  - inversion Hscan'; subst; [done|cbn in Hlen; lia..].
  - inversion Hscan'; simplify_eq; [cbn in *; lia|done|].
    unfold len in *. rewrite length_app in Hcut. lia.
  - inversion Hscan' as [| |t' l' v' rest' rs1 Hv' Hrest']; simplify_eq.
    + cbn in *. lia.
    + unfold len in *. rewrite length_app in *. lia.
    + match goal with
      | Heq : _ ++ _ = _ ++ _ |- _ =>
          apply app_inj_1 in Heq as [-> ->]; [|unfold len in *; lia]
      end.
      f_equal. by apply IH.
Qed.

Lemma values_of_snoc t rs r :
  values_of t (rs ++ [r])
  = values_of t rs ++ (if bool_decide (fst r = t) then [snd r] else []).
Proof.
  unfold values_of. rewrite omap_app. cbn. by case_bool_decide.
Qed.

Lemma listed_default vs : default [] (listed vs) = vs.
Proof. by destruct vs. Qed.

Lemma collect_lookup rs : forall tlvs done,
  (forall t, tlvs !! t = listed (values_of t done)) ->
  forall t, collect rs tlvs !! t = listed (values_of t (done ++ rs)).
Proof.
  induction rs as [|r rs IH]; intros tlvs done Hinv t.
  - by rewrite app_nil_r.
  - rewrite collect_cons.
    replace (done ++ r :: rs) with ((done ++ [r]) ++ rs)
      by (by rewrite <- app_assoc).
    apply IH. intros t'. unfold setdefault_append.
    rewrite values_of_snoc. case_bool_decide as Ht.
    + subst t'. rewrite lookup_insert_eq, Hinv, listed_default.
      by destruct (values_of (fst r) done).
    + rewrite lookup_insert_ne by done. by rewrite Hinv, app_nil_r.
Qed.

Lemma parse_tlvs_collect payload rs :
  scan payload rs -> _parse_tlvs payload = Ok (collect rs ∅).
Proof.
  intros Hscan.
  destruct (parse_loop_scan (S (length payload)) payload 0%nat ∅)
    as (rs' & Hscan' & Hrun); [lia..|].
  rewrite drop_0 in Hscan'. by rewrite (scan_det _ _ Hscan _ Hscan').
Qed.

(** [_parse_tlvs] files every record of the buffer under its type: the list
    it returns for a type holds the values of the records of that type in
    buffer order, and a type without a record is not a key. *)
Theorem parse_tlvs_by_type payload rs :
  scan payload rs ->
  exists tlvs,
    _parse_tlvs payload = Ok tlvs
    /\ forall t, tlvs !! t = listed (values_of t rs).
Proof.
  intros Hscan. exists (collect rs ∅). split.
  - by apply parse_tlvs_collect.
  - intros t. by apply (collect_lookup rs ∅ []).
Qed.

Lemma parse_tlvs_by_type_witness :
  scan example_buffer
    [(0, [Byte.x61; Byte.x62; Byte.x63]); (2, replicate 32 Byte.x01)]
  /\ exists tlvs,
       _parse_tlvs example_buffer = Ok tlvs
       /\ forall t, tlvs !! t
            = listed (values_of t [(0, [Byte.x61; Byte.x62; Byte.x63]);
                                   (2, replicate 32 Byte.x01)]).
Proof.
  assert (scan example_buffer
            [(0, [Byte.x61; Byte.x62; Byte.x63]); (2, replicate 32 Byte.x01)])
    as Hscan.
  { apply (scan_record Byte.x00 Byte.x03 [Byte.x61; Byte.x62; Byte.x63]);
      [reflexivity|].
    apply (scan_record Byte.x02 Byte.x20 (replicate 32 Byte.x01) []);
      [reflexivity|].
    apply scan_header. simpl. lia. }
  split; [exact Hscan|].
  exact (parse_tlvs_by_type _ _ Hscan).
Defined.

End TLVFacts.

(** ** The retrying HTTP client *)

Module HttpFacts.
Import Http Runtime.

Section Client.
Context `{PyLib} {W : Type} `{Network W}.
Implicit Types w : world W.

Lemma bind_total {A B} (m : result A) (k : A -> result B) :
  m <> Diverge -> (forall a, k a <> Diverge) -> m ≫= k <> Diverge.
Proof. destruct m; cbn; auto. Qed.

Lemma encode_total s : encode s <> Diverge.
Proof.
  induction s as [|c s IH]; [done|]. cbn [encode].
  apply bind_total.
  - unfold utf8_encode_char. repeat case_match; done.
  - intros bs. apply bind_total; [done|]. done.
Qed.

Lemma multipart_parts_total boundary files parts :
  multipart_parts boundary files parts <> Diverge.
Proof.
  revert parts. induction files as [|[f [fn fb]] files IH]; intros parts; [done|].
  cbn [multipart_parts].
  repeat (apply bind_total; [apply encode_total|intros ?]).
  apply IH.
Qed.

Lemma build_request_total method url headers data files n :
  (build_request method url headers data files n).1 <> Diverge.
Proof.
  unfold build_request. case_bool_decide; [done|].
  destruct files as [[|f fs]|]; try done.
  destruct (token_hex 12 n) as [tok n']. cbn [fst].
  apply bind_total; [apply multipart_parts_total|intros parts].
  apply bind_total; [apply encode_total|done].
Qed.

(** What one attempt ends in, read off the request building and the
    transport. *)
Lemma attempt_once_outcome method url headers data files w out w1 :
  attempt_once method url headers data files w = (out, w1) ->
  match build_request method url headers data files (net w) with
  | (Ok req, n) =>
      log w1 = log w ++ [Urlopen req] /\
      match urlopen_do req n with
      | (Response resp, n') =>
          net w1 = n' /\
          if (status_code resp >=? 500) || (status_code resp =? 429)
          then out = Raise (HTTPStatus (status_code resp))
          else out = Ok resp
      | (Failure e, n') => net w1 = n' /\ out = Raise e
      end
  | (Raise e, n) => out = Raise e /\ w1 = World n (log w)
  | (Diverge, _) => False
  end.
Proof.
  unfold attempt_once. intros Hrun.
  pose proof (build_request_total method url headers data files (net w)) as Hb.
  destruct (build_request _ _ _ _ _ _) as [[req|e|] n]; cbn in Hb; [| |done].
  - destruct (urlopen_do req n) as [[resp|e] n'].
    + destruct (_ || _); simplify_eq; done.
    + simplify_eq; done.
  - by simplify_eq.
Qed.

Lemma attempt_once_total method url headers data files w :
  (attempt_once method url headers data files w).1 <> Diverge.
Proof.
  destruct (attempt_once _ _ _ _ _ w) as [out w1] eqn:Hrun.
  apply attempt_once_outcome in Hrun.
  destruct (build_request _ _ _ _ _ _) as [[req|e|] n]; [| |done].
  - destruct Hrun as [_ Hrun]. destruct (urlopen_do req n) as [[resp|e] n'].
    + destruct Hrun as [_ Hrun]. destruct (_ || _); by subst.
    + destruct Hrun as [_ ->]. done.
  - destruct Hrun as [-> _]. done.
Qed.

Lemma retry_loop_attempts method url headers data files max_retries :
  forall (fuel : nat) (attempt : Z) last_exc w,
    (Z.to_nat (max_retries - attempt) < fuel)%nat ->
    exists outs w',
      attempts method url headers data files attempt w outs w'
      /\ Z.of_nat (length outs) <= Z.max 0 (max_retries - attempt)
      /\ outcome_of (max_retries - attempt) outs last_exc w
           (retry_loop fuel method url headers data files max_retries attempt
              last_exc w) w'.
Proof.
  induction fuel as [|fuel IH]; intros attempt last_exc w Hfuel; [lia|].
  cbn [retry_loop].
  destruct (Z.ltb_spec attempt max_retries) as [Hlt|Hge].
  - pose proof (attempt_once_total method url headers data files w) as Htot.
    destruct (attempt_once _ _ _ _ _ w) as [[resp|e|] w1] eqn:Hrun;
      cbn in Htot; [| |done].
    + exists [Ok resp], w1. split; [by apply attempts_returned|].
      split; [cbn; lia|]. done.
    + destruct (IH (attempt + 1) (Some e) (sleep (backoff attempt) w1))
        as (outs & w' & Hatt & Hlen & Hout); [lia|].
      exists (Raise e :: outs), w'. split; [by eapply attempts_retried|].
      split; [cbn [length]; lia|].
      unfold outcome_of in *. destruct outs as [|o outs].
      * cbn in *. destruct Hout as (Hn & -> & ->). split; [lia|done].
      * change (last (Raise e :: o :: outs)) with (last (o :: outs)).
        destruct (last (o :: outs)) as [[resp'|e'|]|]; try done.
        -- destruct Hout as [Hn Hout]. split; [cbn [length] in *; lia|done].
        -- destruct Hout as [Hn _]. cbn [length] in Hlen. lia.
  - exists [], w. split; [apply attempts_none|]. split; [cbn; lia|].
    unfold outcome_of. cbn. split; [lia|done].
Qed.

Lemma attempt_once_returns method url headers data files w resp :
  (attempt_once method url headers data files w).1 = Ok resp <->
  exists req n n',
    build_request method url headers data files (net w) = (Ok req, n)
    /\ urlopen_do req n = (Response resp, n')
    /\ status_code resp < 500 /\ status_code resp <> 429.
Proof.
  destruct (attempt_once _ _ _ _ _ w) as [out w1] eqn:Hrun.
  apply attempt_once_outcome in Hrun. cbn [fst].
  destruct (build_request _ _ _ _ _ _) as [[req|e|] n]; [| |done].
  - destruct Hrun as [_ Hrun].
    destruct (urlopen_do req n) as [[resp'|e] n'] eqn:Hopen.
    + destruct Hrun as [_ Hrun].
      destruct (Z.geb_spec (status_code resp') 500);
        destruct (Z.eqb_spec (status_code resp') 429);
        cbn in Hrun; subst out; split;
        try (intros (? & ? & ? & [= <- <-] & Hopen' & ? & ?);
             rewrite Hopen in Hopen'; simplify_eq; lia);
        try done.
      * intros ?; simplify_eq. do 3 eexists. repeat split; done || lia.
      * intros (? & ? & ? & [= <- <-] & Hopen' & _).
        rewrite Hopen in Hopen'. by simplify_eq.
    + destruct Hrun as [_ ->]. split; [done|].
      intros (? & ? & ? & [= <- <-] & Hopen' & _).
      rewrite Hopen in Hopen'. simplify_eq.
  - destruct Hrun as [-> _]. split; [done|].
    intros (? & ? & ? & ? & _); simplify_eq.
Qed.











Lemma lower_key_in (k : list Z) (h : gmap (list Z) (list Z)) :
  forallb printable k = true ->
  map ascii_lower k ∉ (set_map str_lower (dom h) : gset (list Z)) ->
  h !! k = None.
Proof.
  intros Hk Hnot. apply not_elem_of_dom. intros Hin. apply Hnot.
  apply elem_of_map. exists k. by rewrite str_lower_printable.
Qed.

Lemma add_default_headers_keeps (method url : list Z)
    (h : gmap (list Z) (list Z)) (k v : list Z) :
  h !! k = Some v -> _add_default_headers method url h !! k = Some v.
Proof.
  intros Hk.
  pose proof (lower_key_in (lit "User-Agent") h eq_refl) as Hua.
  pose proof (lower_key_in (lit "Accept") h eq_refl) as Hacc.
  pose proof (lower_key_in (lit "Referer") h eq_refl) as Href.
  unfold _add_default_headers.
  repeat match goal with
  | |- context [bool_decide ?P] => destruct (bool_decide_reflect P)
  end; cbn [andb];
  repeat (rewrite lookup_insert_ne; [|intros <-]);
  try done; try (rewrite Hua in Hk; done); try (rewrite Hacc in Hk; done);
  try (rewrite Href in Hk; done).
Qed.


Lemma requests_app l1 l2 : requests (l1 ++ l2) = requests l1 ++ requests l2.
Proof. apply omap_app. Qed.

(** The requests a row of passes sends: at most one per pass, each built
    from the arguments of the call. *)
Lemma attempts_requests method url headers data files a w outs w' :
  attempts method url headers data files a w outs w' ->
  exists new,
    log w' = log w ++ new
    /\ (length (requests new) <= length outs)%nat
    /\ Forall (fun r => exists n n',
                 build_request method url headers data files n = (Ok r, n'))
         (requests new).
Proof.
  assert (forall w out w1,
    attempt_once method url headers data files w = (out, w1) ->
    exists new, log w1 = log w ++ new
      /\ (length (requests new) <= 1)%nat
      /\ Forall (fun r => exists n n',
                   build_request method url headers data files n = (Ok r, n'))
           (requests new)) as Hone.
  { intros w0 out w1 Hrun. apply attempt_once_outcome in Hrun.
    destruct (build_request _ _ _ _ _ (net w0)) as [[req|e|] n] eqn:Hreq;
      [| |done].
    - destruct Hrun as [Hlog _]. exists [Urlopen req].
      split; [done|]. split; [done|]. constructor; [|constructor]. eauto.
    - destruct Hrun as [_ ->]. exists []. rewrite app_nil_r.
      split; [done|]. split; [cbn; lia|constructor]. }
  induction 1 as [a w|a w resp w1 Hrun|a w e w1 outs w2 Hrun Hrest IH].
  - exists []. rewrite app_nil_r. split; [done|]. split; [done|constructor].
  - apply Hone in Hrun as (new & ? & ? & ?). by exists new.
  - apply Hone in Hrun as (new1 & Hlog1 & Hlen1 & Hall1).
    destruct IH as (new & Hlog & Hlen & Hall).
    exists (new1 ++ [Sleep (backoff a)] ++ new). split; [|split].
    + rewrite Hlog. cbn [sleep log]. rewrite Hlog1. by rewrite <- !app_assoc.
    + rewrite !requests_app, !length_app. cbn. lia.
    + rewrite !requests_app. cbn. by apply Forall_app.
Qed.

(** [http_request] sends at most [max_retries] requests, all of them built
    from its arguments, and only adds to the log. *)
Lemma http_request_requests method url headers data files max_retries w :
  valid_method method = true ->
  exists new,
    log (http_request method url headers data files max_retries w).2
    = log w ++ new
    /\ Z.of_nat (length (requests new)) <= Z.max 0 max_retries
    /\ Forall (fun r => exists n n',
                 build_request method url headers data files n = (Ok r, n'))
         (requests new).
Proof.
  intros Hm.
  unfold http_request. rewrite Hm. cbn [negb].
  destruct (retry_loop_attempts method url headers data files max_retries
              (S (Z.to_nat max_retries)) 0 None w)
    as (outs & w' & Hatt & Hlen & Hout); [rewrite Z.sub_0_r; lia|].
  rewrite Z.sub_0_r in *.
  apply attempts_requests in Hatt as (new & Hlog & Hlen' & Hall).
  exists new. split; [|split; [lia|done]].
  rewrite <- Hlog. f_equal. unfold outcome_of in Hout.
  destruct (last outs) as [[resp|e|]|]; try done.
  - by rewrite Hout.
  - destruct Hout as [_ ->]. done.
  - destruct Hout as (_ & -> & ->). done.
Qed.



End Client.

Section Examples.
#[local] Existing Instances Runtime.ascii Runtime.scripted.






End Examples.
End HttpFacts.

(** ** The relay probe *)

Module ProbeFacts.
Import Http Probe Runtime HttpFacts.

Section WithNet.
Context `{PyLib} {W : Type} `{Network W}.

(** What one round of the loop leaves: the entry of this relay and a
    [max_pow] that has not gone down and covers the entry. *)
Lemma probe_one_entry rurl mp (w : world W) e mp' w' :
  probe_one rurl mp w = (e, mp', w') ->
  e_url e = rurl
  /\ forced e = false
  /\ (reachable e = false -> min_pow e = None)
  /\ int_value mp <= int_value mp'
  /\ (forall v, min_pow e = Some v -> int_value v <= int_value mp')
  /\ (mp' = mp \/ min_pow e = Some mp').
Proof.
  unfold probe_one. intros Hrun.
  repeat match type of Hrun with
  | context [match ?x with _ => _ end] => destruct x eqn:?
  end; simplify_eq; cbn; repeat split; try done; try lia; auto;
  intros; simplify_eq; lia.
Qed.

Lemma probe_loop_entries urls : forall mp diag (w : world W) mp' diag' w',
  probe_loop urls mp diag w = (mp', diag', w') ->
  covered mp diag ->
  Forall (fun e => forced e = false
                   /\ (reachable e = false -> min_pow e = None)) diag ->
  covered mp' diag'
  /\ map e_url diag' = map e_url diag ++ urls
  /\ Forall (fun e => forced e = false
                      /\ (reachable e = false -> min_pow e = None)) diag'.
Proof.
  induction urls as [|rurl urls IH]; intros mp diag w mp' diag' w' Hrun Hcov Hall.
  - cbn in Hrun. simplify_eq. by rewrite app_nil_r.
  - cbn [probe_loop] in Hrun.
    destruct (probe_one rurl mp w) as [[e mp1] w1] eqn:Hone.
    apply probe_one_entry in Hone as (Hurl & Hf & Hr & Hle & Hv & Hmp).
    apply IH in Hrun as (Hcov' & Hurls & Hall').
    + split; [done|]. split; [|done].
      rewrite Hurls, map_app. cbn. rewrite Hurl. by rewrite <- app_assoc.
    + destruct Hcov as (Hnn & Hbound & Hatt). split; [lia|]. split.
      * intros e' v [Hin| ->%list_elem_of_singleton]%elem_of_app Hmin.
        -- specialize (Hbound _ _ Hin Hmin). lia.
        -- by apply Hv.
      * intros Hpos. destruct Hmp as [->|Hmp].
        -- destruct (Hatt Hpos) as (e' & Hin & Hmin).
           exists e'. split; [|done]. apply elem_of_app. by left.
        -- exists e. split; [|done]. apply elem_of_app. right.
           by apply list_elem_of_singleton.
    + apply Forall_app. split; [done|]. by constructor.
Qed.

Lemma fetch_relay_min_pow_loop urls (w : world W) mp diag w' :
  fetch_relay_min_pow urls w = (mp, diag, w') ->
  exists diag0,
    diag = map (mark_forced mp) diag0
    /\ covered mp diag0
    /\ map e_url diag0 = urls
    /\ Forall (fun e => reachable e = false -> min_pow e = None) diag0.
Proof.
  unfold fetch_relay_min_pow. intros Hrun.
  destruct (probe_loop urls (PInt 0) [] w) as [[mp0 diag0] w0] eqn:Hloop.
  simplify_eq. exists diag0. split; [done|].
  apply probe_loop_entries in Hloop as (Hcov & Hurls & Hall).
  - split; [done|]. split; [done|].
    eapply Forall_impl; [exact Hall|]. by intros ? [_ ?].
  - split; [done|]. split; [by intros ?? ?%elem_of_nil|cbn; lia].
  - constructor.
Qed.

(** The report of [fetch_relay_min_pow] has one entry per relay URL it was
    given, in the order given and under that URL; a relay reported as
    unreachable has no [min_pow] and is not forced. *)
Theorem fetch_relay_min_pow_report urls (w : world W) mp diag w' :
  fetch_relay_min_pow urls w = (mp, diag, w') ->
  map e_url diag = urls
  /\ forall e, e ∈ diag ->
       reachable e = false -> min_pow e = None /\ forced e = false.
Proof.
  intros (diag0 & -> & _ & Hurls & Hall)%fetch_relay_min_pow_loop. split.
  - rewrite <- Hurls. rewrite map_map. by apply map_ext.
  - intros e (e0 & -> & Hin)%list_elem_of_fmap Hr. cbn in *.
    rewrite Forall_forall in Hall. rewrite (Hall e0 Hin Hr). done.
Qed.

(** The difficulty [fetch_relay_min_pow] returns is the largest a relay
    asked for, and 0 when none asked for any: it is never negative, no entry's
    [min_pow] exceeds it, the entries marked [forced] are exactly those whose
    [min_pow] is an integer equal to it, and when it is positive at least one
    entry is forced. *)
Theorem fetch_relay_min_pow_max urls (w : world W) mp diag w' :
  fetch_relay_min_pow urls w = (mp, diag, w') ->
  0 <= int_value mp
  /\ (forall e, e ∈ diag ->
        (forall v, min_pow e = Some v -> int_value v <= int_value mp)
        /\ (forced e = true <->
            exists v, min_pow e = Some v /\ int_value v = int_value mp))
  /\ (0 < int_value mp -> exists e, e ∈ diag /\ forced e = true).
Proof.
  intros (diag0 & -> & (Hnn & Hbound & Hatt) & _ & _)%fetch_relay_min_pow_loop.
  split; [done|]. split.
  - intros e (e0 & -> & Hin)%list_elem_of_fmap. cbn. split.
    + intros v Hv. by eapply Hbound.
    + destruct (min_pow e0) as [v|]; split.
      * intros ?%Z.eqb_eq. by exists v.
      * intros (v' & [= <-] & ?). by apply Z.eqb_eq.
      * done.
      * by intros (? & ? & _).
  - intros Hpos. destruct (Hatt Hpos) as (e0 & Hin & Hmin).
    exists (mark_forced mp e0). split.
    + apply list_elem_of_fmap. by exists e0.
    + cbn. rewrite Hmin. by apply Z.eqb_eq.
Qed.

Lemma probe_one_requests rurl mp (w : world W) :
  exists new,
    log (probe_one rurl mp w).2 = log w ++ new
    /\ (length (requests new) <= 3)%nat
    /\ Forall (probe_request rurl) (requests new).
Proof.
  assert (str_upper (lit "GET") = lit "GET") as Hup
    by (by rewrite str_upper_printable).
  unfold probe_one.
  destruct (convert_ws_to_http rurl) as [http|] eqn:Hconv.
  2:{ exists []. rewrite app_nil_r. split; [done|]. split; [cbn; lia|constructor]. }
  destruct (http_request_requests (lit "GET") http (Some accept_header)
              None None 3 w) as (new & Hlog & Hlen & Hall).
  { unfold valid_method. rewrite Hup. done. }
  exists new. split; [|split; [lia|]].
  - rewrite <- Hlog.
    destruct (http_request _ _ _ _ _ _ _) as [[resp|e|] w1]; try done.
    cbn [snd]. destruct (negb _); [done|]. by destruct (read_limits resp).
  - eapply Forall_impl; [exact Hall|]. intros r (n & n' & Hreq).
    unfold build_request in Hreq. rewrite Hup in Hreq.
    rewrite bool_decide_eq_true_2 in Hreq by done. simplify_eq.
    split; [done|]. split; [done|]. split; [done|]. cbn [req_headers].
    apply add_default_headers_keeps. apply lookup_singleton_eq.
Qed.

Lemma probe_loop_requests urls : forall mp diag (w : world W),
  exists new,
    log (probe_loop urls mp diag w).2 = log w ++ new
    /\ (length (requests new) <= 3 * length urls)%nat
    /\ Forall (fun r => exists rurl, rurl ∈ urls /\ probe_request rurl r)
         (requests new).
Proof.
  induction urls as [|rurl urls IH]; intros mp diag w.
  - exists []. rewrite app_nil_r. split; [done|]. split; [cbn; lia|constructor].
  - cbn [probe_loop].
    destruct (probe_one_requests rurl mp w) as (new1 & Hlog1 & Hlen1 & Hall1).
    destruct (probe_one rurl mp w) as [[e mp1] w1]. cbn [snd] in Hlog1.
    destruct (IH mp1 (diag ++ [e]) w1) as (new & Hlog & Hlen & Hall).
    exists (new1 ++ new). split; [|split].
    + by rewrite Hlog, Hlog1, app_assoc.
    + rewrite requests_app, length_app. cbn [length]. lia.
    + rewrite requests_app. apply Forall_app. split.
      * eapply Forall_impl; [exact Hall1|]. intros r Hr. exists rurl.
        split; [apply elem_of_cons; by left|done].
      * eapply Forall_impl; [exact Hall|]. intros r (u & Hin & Hr). exists u.
        split; [apply elem_of_cons; by right|done].
Qed.

(** [fetch_relay_min_pow] sends at most three requests per relay URL, and
    every request it sends is a [GET] without a body, for the HTTP address
    of one of the relays it was given, that carries
    [Accept: application/nostr+json]. *)
Theorem fetch_relay_min_pow_requests urls (w : world W) :
  exists new,
    log (fetch_relay_min_pow urls w).2 = log w ++ new
    /\ (length (requests new) <= 3 * length urls)%nat
    /\ Forall (fun r => exists rurl, rurl ∈ urls /\ probe_request rurl r)
         (requests new).
Proof.
  destruct (probe_loop_requests urls (PInt 0) [] w) as (new & Hlog & ? & ?).
  exists new. split; [|done]. rewrite <- Hlog. unfold fetch_relay_min_pow.
  by destruct (probe_loop urls (PInt 0) [] w) as [[mp diag] w'].
Qed.

End WithNet.

Section Examples.
#[local] Existing Instances Runtime.ascii Runtime.scripted.

Lemma fetch_relay_min_pow_report_witness :
  probed = (PInt 15, probed_entries, probed.2)
  /\ map e_url probed_entries = two_relays
  /\ forall e, e ∈ probed_entries ->
       reachable e = false -> min_pow e = None /\ forced e = false.
Proof.
  assert (probed = (PInt 15, probed_entries, probed.2)) as Hrun
    by (vm_compute; reflexivity).
  split; [exact Hrun|].
  exact (fetch_relay_min_pow_report two_relays _ _ _ _ Hrun).
Defined.

Lemma fetch_relay_min_pow_max_witness :
  probed = (PInt 15, probed_entries, probed.2)
  /\ 0 <= int_value (PInt 15)
  /\ (forall e, e ∈ probed_entries ->
        (forall v, min_pow e = Some v -> int_value v <= int_value (PInt 15))
        /\ (forced e = true <->
            exists v, min_pow e = Some v
                      /\ int_value v = int_value (PInt 15)))
  /\ (0 < int_value (PInt 15) ->
      exists e, e ∈ probed_entries /\ forced e = true).
Proof.
  assert (probed = (PInt 15, probed_entries, probed.2)) as Hrun
    by (vm_compute; reflexivity).
  split; [exact Hrun|].
  exact (fetch_relay_min_pow_max two_relays _ _ _ _ Hrun).
Defined.

End Examples.
End ProbeFacts.

(** ** NIP-19 identifiers *)

Module Nip19Facts.
Import TLV Bech32 Nip19 Runtime TLVFacts.

Lemma decode_relays_omap raw : forall rels,
  decode_relays raw rels = rels ++ omap utf8_decode raw.
Proof.
  induction raw as [|r raw IH]; intros rels; cbn.
  - by rewrite app_nil_r.
  - destruct (utf8_decode r); rewrite IH; [by rewrite <- app_assoc|done].
Qed.

Lemma ord_byte_range b : 0 <= ord_byte b < 256.
Proof.
  unfold ord_byte. pose proof (Byte.to_N_bounded b). lia.
Qed.

Lemma hex_digit_lower n : 0 <= n < 16 -> is_hex_lower (hex_digit n) = true.
Proof.
  intros Hn. unfold hex_digit, is_hex_lower.
  destruct (Z.ltb_spec n 10); apply orb_true_iff; [left|right];
    apply andb_true_iff; split; apply Z.leb_le; lia.
Qed.

Lemma hex_shape b :
  length (hex b) = (2 * length b)%nat /\ forallb is_hex_lower (hex b) = true.
Proof.
  induction b as [|x b [IHl IHf]]; [done|].
  pose proof (ord_byte_range x) as Hx.
  cbn [hex flat_map app length forallb]. fold (hex b). split; [lia|].
  rewrite !hex_digit_lower, IHf; [done| |].
  - apply Z.mod_pos_bound. lia.
  - split; [apply Z.div_pos; lia|apply Z.div_lt_upper_bound; lia].
Qed.

Lemma int_from_bytes_big_range b :
  0 <= int_from_bytes_big b < 256 ^ Z.of_nat (length b).
Proof.
  unfold int_from_bytes_big.
  assert (forall acc n, 0 <= acc < 256 ^ Z.of_nat n ->
            0 <= fold_left (fun acc x => acc * 256 + ord_byte x) b acc
              < 256 ^ Z.of_nat (n + length b)) as Hgen.
  { induction b as [|x b IH]; intros acc n Hacc.
    - by rewrite Nat.add_0_r.
    - cbn [fold_left length]. pose proof (ord_byte_range x).
      replace (n + S (length b))%nat with (S n + length b)%nat by lia.
      apply IH. rewrite Nat2Z.inj_succ, Z.pow_succ_r by lia. lia. }
  apply (Hgen 0 0%nat). cbn. lia.
Qed.

Section WithLib.
Context `{PyLib}.

(** Once the token is a well-formed [nprofile] bech32 string,
    [decode_nprofile] reads its records: the public key is the value of the
    first record of type 0, which must be 32 bytes long whatever records of
    type 0 follow it, and the relays are the values of the records of type 1
    that are valid UTF-8, in buffer order. *)
Theorem decode_nprofile_records input payload rs :
  startswith (str_lower (_find_candidate_token (_strip_wrappers input)))
    (lit "nprofile1") = true ->
  _nip19_payload (str_lower (_find_candidate_token (_strip_wrappers input)))
  = Ok (lit "nprofile", payload) ->
  scan payload rs ->
  decode_nprofile input = nprofile_of_records rs.
Proof.
  intros Hpre Hpay Hscan. unfold decode_nprofile, nprofile_of_records.
  rewrite Hpre, Hpay. cbn [negb mbind result_bind].
  rewrite bool_decide_eq_false_2 by (by intros ?).
  rewrite (parse_tlvs_collect payload rs Hscan). cbn [mbind result_bind].
  rewrite !(collect_lookup rs ∅ []), !listed_default by done. cbn [app].
  destruct (values_of 0 rs) as [|pk pks]; [done|].
  destruct (len pk =? 32); [|done]. cbn [negb].
  by rewrite decode_relays_omap.
Qed.

(** The public key [decode_nprofile] returns is 64 lower-case hexadecimal
    digits. *)
Theorem decode_nprofile_shape input pk rels :
  decode_nprofile input = Ok (pk, rels) ->
  length pk = 64%nat /\ forallb is_hex_lower pk = true.
Proof.
  unfold decode_nprofile. intros Hrun.
  destruct (negb (startswith _ _)); [done|].
  destruct (_nip19_payload _) as [[hrp payload]|e|]; [|done..].
  cbn [mbind result_bind] in Hrun. destruct (bool_decide _); [done|].
  destruct (_parse_tlvs payload) as [tlvs|e|]; [|done..].
  cbn [mbind result_bind] in Hrun.
  destruct (default [] (tlvs !! 0)) as [|pk0 pks]; [done|].
  destruct (Z.eqb_spec (len pk0) 32) as [Hlen|]; [|done].
  cbn [negb] in Hrun. simplify_eq.
  destruct (hex_shape pk0) as [Hl ?]. unfold len in Hlen. split; [lia|done].
Qed.

(** Once the token is a well-formed [naddr] bech32 string, [decode_naddr]
    reads its records: identifier, author and kind are the values of the
    first records of type 0, 2 and 3, which must be valid UTF-8, 32 bytes
    and 4 bytes; the kind is the 4 bytes read as a big-endian number; the
    relays are the values of the records of type 1 that are valid UTF-8, in
    buffer order. *)
Theorem decode_naddr_records input payload rs :
  startswith (str_lower (_find_candidate_token (_strip_wrappers input)))
    (lit "naddr1") = true ->
  _nip19_payload (str_lower (_find_candidate_token (_strip_wrappers input)))
  = Ok (lit "naddr", payload) ->
  scan payload rs ->
  decode_naddr input = naddr_of_records rs.
Proof.
  intros Hpre Hpay Hscan. unfold decode_naddr, naddr_of_records.
  rewrite Hpre, Hpay. cbn [negb mbind result_bind].
  rewrite bool_decide_eq_false_2 by (by intros ?).
  rewrite (parse_tlvs_collect payload rs Hscan). cbn [mbind result_bind].
  rewrite !(collect_lookup rs ∅ []), !listed_default by done. cbn [app].
  destruct (values_of 0 rs) as [|id0 ids]; [done|].
  destruct (utf8_decode id0) as [ident|]; [|done].
  destruct (values_of 2 rs) as [|a0 authors]; [done|].
  destruct (len a0 =? 32); [|done]. cbn [negb].
  destruct (values_of 3 rs) as [|k0 kinds]; [done|].
  destruct (len k0 =? 4); [|done]. cbn [negb].
  by rewrite decode_relays_omap.
Qed.

(** What [decode_naddr] returns is well formed: the kind is an unsigned
    32-bit number and the author is 64 lower-case hexadecimal digits. *)
Theorem decode_naddr_shape input kind pk ident rels :
  decode_naddr input = Ok (kind, pk, ident, rels) ->
  0 <= kind < 2 ^ 32
  /\ length pk = 64%nat /\ forallb is_hex_lower pk = true.
Proof.
  unfold decode_naddr. intros Hrun.
  destruct (negb (startswith _ _)); [done|].
  destruct (_nip19_payload _) as [[hrp payload]|e|]; [|done..].
  cbn [mbind result_bind] in Hrun. destruct (bool_decide _); [done|].
  destruct (_parse_tlvs payload) as [tlvs|e|]; [|done..].
  cbn [mbind result_bind] in Hrun.
  destruct (default [] (tlvs !! 0)) as [|id0 ids]; [done|].
  destruct (utf8_decode id0) as [ident0|]; [|done].
  destruct (default [] (tlvs !! 2)) as [|a0 authors]; [done|].
  destruct (Z.eqb_spec (len a0) 32) as [Ha|]; [|done]. cbn [negb] in Hrun.
  destruct (default [] (tlvs !! 3)) as [|k0 kinds]; [done|].
  destruct (Z.eqb_spec (len k0) 4) as [Hk|]; [|done]. cbn [negb] in Hrun.
  simplify_eq. unfold len in *.
  destruct (hex_shape a0) as [Hl ?].
  pose proof (int_from_bytes_big_range k0) as Hr.
  replace (Z.of_nat (length k0)) with 4 in Hr by lia.
  split; [|split; [lia|done]]. change (256 ^ 4) with (2 ^ 32) in Hr. done.
Qed.

End WithLib.

Section Examples.
#[local] Existing Instance Runtime.ascii.

Lemma scan_naddr_records : scan (buffer_of naddr_records) naddr_records.
Proof.
  apply (scan_record Byte.x00 Byte.x01 [Byte.x78]); [reflexivity|].
  apply (scan_record Byte.x01 Byte.x0f relay_bytes); [reflexivity|].
  apply (scan_record Byte.x02 Byte.x20 example_pk); [reflexivity|].
  apply (scan_record Byte.x03 Byte.x04
           [Byte.x00; Byte.x00; Byte.x75; Byte.x47] []); [reflexivity|].
  apply scan_header. simpl. lia.
Defined.

Lemma scan_nprofile_two_records :
  scan (buffer_of nprofile_two_records) nprofile_two_records.
Proof.
  apply (scan_record Byte.x00 Byte.x20 example_pk); [reflexivity|].
  apply (scan_record Byte.x00 Byte.x20 (replicate 32 Byte.xaa) []);
    [reflexivity|].
  apply scan_header. simpl. lia.
Defined.

Lemma decode_nprofile_records_witness :
  startswith (str_lower (_find_candidate_token (_strip_wrappers nprofile_two)))
    (lit "nprofile1") = true
  /\ _nip19_payload
       (str_lower (_find_candidate_token (_strip_wrappers nprofile_two)))
     = Ok (lit "nprofile", buffer_of nprofile_two_records)
  /\ scan (buffer_of nprofile_two_records) nprofile_two_records
  /\ decode_nprofile nprofile_two = nprofile_of_records nprofile_two_records.
Proof.
  assert (startswith
            (str_lower (_find_candidate_token (_strip_wrappers nprofile_two)))
            (lit "nprofile1") = true) as Hpre by (vm_compute; reflexivity).
  assert (_nip19_payload
            (str_lower (_find_candidate_token (_strip_wrappers nprofile_two)))
          = Ok (lit "nprofile", buffer_of nprofile_two_records)) as Hpay
    by (vm_compute; reflexivity).
  split; [exact Hpre|]. split; [exact Hpay|].
  split; [exact scan_nprofile_two_records|].
  exact (decode_nprofile_records nprofile_two _ _ Hpre Hpay
           scan_nprofile_two_records).
Defined.

Lemma decode_nprofile_shape_witness :
  decode_nprofile nprofile_two = Ok (hex example_pk, [])
  /\ length (hex example_pk) = 64%nat
  /\ forallb is_hex_lower (hex example_pk) = true.
Proof.
  assert (decode_nprofile nprofile_two = Ok (hex example_pk, [])) as Hrun
    by (vm_compute; reflexivity).
  split; [exact Hrun|].
  exact (decode_nprofile_shape nprofile_two _ _ Hrun).
Defined.

Lemma decode_naddr_records_witness :
  startswith (str_lower (_find_candidate_token (_strip_wrappers naddr_token)))
    (lit "naddr1") = true
  /\ _nip19_payload
       (str_lower (_find_candidate_token (_strip_wrappers naddr_token)))
     = Ok (lit "naddr", buffer_of naddr_records)
  /\ scan (buffer_of naddr_records) naddr_records
  /\ decode_naddr naddr_token = naddr_of_records naddr_records.
Proof.
  assert (startswith
            (str_lower (_find_candidate_token (_strip_wrappers naddr_token)))
            (lit "naddr1") = true) as Hpre by (vm_compute; reflexivity).
  assert (_nip19_payload
            (str_lower (_find_candidate_token (_strip_wrappers naddr_token)))
          = Ok (lit "naddr", buffer_of naddr_records)) as Hpay
    by (vm_compute; reflexivity).
  split; [exact Hpre|]. split; [exact Hpay|].
  split; [exact scan_naddr_records|].
  exact (decode_naddr_records naddr_token _ _ Hpre Hpay scan_naddr_records).
Defined.

Lemma decode_naddr_shape_witness :
  decode_naddr naddr_token
  = Ok (30023, hex example_pk, lit "x", [lit "wss://r.example"])
  /\ 0 <= 30023 < 2 ^ 32
  /\ length (hex example_pk) = 64%nat
  /\ forallb is_hex_lower (hex example_pk) = true.
Proof.
  assert (decode_naddr naddr_token
          = Ok (30023, hex example_pk, lit "x", [lit "wss://r.example"]))
    as Hrun by (vm_compute; reflexivity).
  split; [exact Hrun|].
  exact (decode_naddr_shape naddr_token _ _ _ _ Hrun).
Defined.

End Examples.

End Nip19Facts.

(** ** Resolving an naddr through the relays *)

Module ResolveFacts.
Import Nip19 Resolve Runtime.

Section WithSdk.
Context `{PyLib} {W PK KD Events Event : Type} `{Sdk W PK KD Events Event}.

Lemma add_relays_calls relays : forall s : state,
  calls (add_relays relays s) = calls s ++ map AddRelay relays.
Proof.
  induction relays as [|r relays IH]; intros s; cbn [add_relays map].
  - by rewrite app_nil_r.
  - destruct (add_relay r (sdk s)) as [out w]. rewrite IH. cbn.
    by rewrite <- app_assoc.
Qed.

(** The calls of the [try] body: every relay is added, in order, whether
    adding it raised or not; then comes the connection and, when the public
    key and the kind are accepted, one query for the identifier with limit 1
    and a timeout of 8 seconds. *)
Lemma query_calls kind pk_hex ident relays (s : state) :
  exists fetch,
    calls (query kind pk_hex ident relays s).2
    = calls s ++ map AddRelay relays ++ Connect :: fetch
    /\ (fetch = []
        \/ exists pk kd,
             public_key_parse pk_hex = Ok pk /\ kind_new kind = Ok kd
             /\ fetch = [FetchEvents {| f_author := pk; f_kind := kd;
                                        f_identifier := ident;
                                        f_limit := 1 |} 8]).
Proof.
  unfold query.
  pose proof (add_relays_calls relays s) as Hadd.
  destruct (connect (sdk (add_relays relays s))) as [r w].
  destruct r as [[]|e|]; cbn [snd];
    try (exists []; cbn; rewrite Hadd, <- app_assoc; by split; [|left]).
  destruct (public_key_parse pk_hex) as [pk|e|]; cbn [snd];
    try (exists []; cbn; rewrite Hadd, <- app_assoc; by split; [|left]).
  destruct (kind_new kind) as [kd|e|]; cbn [snd];
    try (exists []; cbn; rewrite Hadd, <- app_assoc; by split; [|left]).
  destruct (fetch_events _ 8 _) as [r' w'].
  eexists. split; [|right; by exists pk, kd].
  destruct r' as [events|e|]; [destruct (events_to_list events)|..];
    cbn; by rewrite Hadd, <- !app_assoc.
Qed.

(** Once the naddr is decoded and the client is created,
    [resolve_naddr_to_event_id] talks to the relays embedded in the naddr,
    or to the given ones when it embeds none: it adds each of them in order,
    connects, sends at most one query (author, kind and identifier of the
    naddr, limit 1, 8 seconds) and, whatever happened, ends with
    [disconnect] when the client has one. *)
Theorem resolve_naddr_calls naddr relay_urls (w : W) kind pk_hex ident emb w1 :
  decode_naddr naddr = Ok (kind, pk_hex, ident, emb) ->
  client_new w = (Ok (), w1) ->
  exists fetch,
    calls (resolve_naddr_to_event_id naddr relay_urls w).2
    = NewClient
      :: map AddRelay (match emb with [] => relay_urls | _ => emb end)
      ++ Connect :: fetch ++ (if has_disconnect then [Disconnect] else [])
    /\ (fetch = []
        \/ exists pk kd,
             public_key_parse pk_hex = Ok pk /\ kind_new kind = Ok kd
             /\ fetch = [FetchEvents {| f_author := pk; f_kind := kd;
                                        f_identifier := ident;
                                        f_limit := 1 |} 8]).
Proof.
  intros Hdec Hnew. unfold resolve_naddr_to_event_id. rewrite Hdec, Hnew.
  set (relays := match emb with [] => relay_urls | _ => emb end).
  destruct (query_calls kind pk_hex ident relays (State w1 [NewClient]))
    as (fetch & Hcalls & Hfetch).
  exists fetch. split; [|done].
  destruct (query kind pk_hex ident relays _) as [r s]. cbn [snd] in *.
  unfold finally_disconnect. destruct has_disconnect.
  - destruct (disconnect (sdk s)) as [out w2]. cbn. rewrite Hcalls. cbn.
    by rewrite <- !app_assoc.
  - rewrite Hcalls. cbn. by rewrite app_nil_r.
Qed.

(** The id [resolve_naddr_to_event_id] returns is that of the first event
    of the answer to its one query. *)
Theorem resolve_naddr_returns naddr relay_urls (w : W) id (s : state) :
  resolve_naddr_to_event_id naddr relay_urls w = (Ok id, s) ->
  exists f w0 events w0' ev rest,
    In (FetchEvents f 8) (calls s)
    /\ fetch_events f 8 w0 = (Ok events, w0')
    /\ events_to_list events = ev :: rest
    /\ event_id_hex ev = Ok id.
Proof.
  unfold resolve_naddr_to_event_id.
  destruct (decode_naddr naddr) as [[[[kind pk_hex] ident] emb]|e|];
    [|done..].
  set (relays := match emb with [] => relay_urls | _ => emb end).
  destruct (client_new w) as [[[]|e|] w1]; [|done..].
  unfold query.
  destruct (connect _) as [[[]|e|] w2]; [|done..].
  destruct (public_key_parse pk_hex) as [pk|e|]; [|done..].
  destruct (kind_new kind) as [kd|e|]; [|done..].
  destruct (fetch_events _ 8 _) as [[events|e|] w3] eqn:Hfetch; [|done..].
  destruct (events_to_list events) as [|ev rest] eqn:Hlist; [done|].
  intros [= Hid <-].
  eexists _, _, events, w3, ev, rest. split; [|done].
  unfold finally_disconnect.
  destruct has_disconnect; [destruct (disconnect _)|]; cbn;
    rewrite ?in_app_iff; cbn; auto 6.
Qed.

End WithSdk.

Section Examples.
#[local] Existing Instances Runtime.ascii Runtime.relay_pool.

Lemma resolve_naddr_calls_witness :
  decode_naddr naddr_token
  = Ok (30023, hex example_pk, lit "x", [lit "wss://r.example"])
  /\ client_new stored_ids = (Ok (), stored_ids)
  /\ exists fetch,
       calls (resolve_naddr_to_event_id naddr_token [lit "wss://fallback"]
                stored_ids).2
       = NewClient :: map AddRelay [lit "wss://r.example"]
         ++ Connect :: fetch ++ (if has_disconnect then [Disconnect] else [])
       /\ (fetch = []
           \/ exists pk kd,
                public_key_parse (hex example_pk) = Ok pk
                /\ kind_new 30023 = Ok kd
                /\ fetch = [FetchEvents {| f_author := pk; f_kind := kd;
                                           f_identifier := lit "x";
                                           f_limit := 1 |} 8]).
Proof.
  assert (decode_naddr naddr_token
          = Ok (30023, hex example_pk, lit "x", [lit "wss://r.example"]))
    as Hdec by (vm_compute; reflexivity).
  split; [exact Hdec|]. split; [reflexivity|].
  exact (resolve_naddr_calls naddr_token [lit "wss://fallback"] stored_ids
           _ _ _ _ _ Hdec eq_refl).
Defined.

Lemma resolve_naddr_returns_witness :
  resolve_naddr_to_event_id naddr_token [] stored_ids
  = (Ok (lit "e1"),
     (resolve_naddr_to_event_id naddr_token [] stored_ids).2)
  /\ exists f w0 events w0' ev rest,
       In (FetchEvents f 8)
          (calls (resolve_naddr_to_event_id naddr_token [] stored_ids).2)
       /\ fetch_events f 8 w0 = (Ok events, w0')
       /\ events_to_list events = ev :: rest
       /\ event_id_hex ev = Ok (lit "e1").
Proof.
  assert (resolve_naddr_to_event_id naddr_token [] stored_ids
          = (Ok (lit "e1"),
             (resolve_naddr_to_event_id naddr_token [] stored_ids).2))
    as Hrun by (vm_compute; reflexivity).
  split; [exact Hrun|].
  exact (resolve_naddr_returns naddr_token [] stored_ids _ _ Hrun).
Defined.

End Examples.

End ResolveFacts.

(** ** The bech32 checksum *)

Module Bech32Facts.
Import Bech32.

Lemma land_lxor_distr a b m :
  Z.land (Z.lxor a b) m = Z.lxor (Z.land a m) (Z.land b m).
Proof.
  apply Z.bits_inj'. intros n Hn.
  rewrite !Z.lxor_spec, !Z.land_spec, !Z.lxor_spec.
  by destruct (Z.testbit a n), (Z.testbit b n), (Z.testbit m n).
Qed.

Lemma lxor_bound a b n :
  0 <= n -> 0 <= a < 2 ^ n -> 0 <= b < 2 ^ n -> 0 <= Z.lxor a b < 2 ^ n.
Proof.
  intros Hn Ha Hb.
  assert (0 <= Z.lxor a b) as Hnn by (apply Z.lxor_nonneg; lia).
  split; [done|].
  destruct (decide (a = 0)) as [->|]; [rewrite Z.lxor_0_l; lia|].
  destruct (decide (b = 0)) as [->|]; [rewrite Z.lxor_0_r; lia|].
  destruct (decide (Z.lxor a b = 0)) as [->|Hne]; [lia|].
  apply Z.log2_lt_pow2; [lia|].
  pose proof (Z.log2_lxor a b ltac:(lia) ltac:(lia)) as Hlog.
  assert (Z.log2 a < n) by (apply Z.log2_lt_pow2; lia).
  assert (Z.log2 b < n) by (apply Z.log2_lt_pow2; lia).
  lia.
Qed.

Lemma polymod_step_split chk v :
  polymod_step chk v
  = Z.lxor (Z.lxor (Z.shiftl (Z.land chk 0x1FFFFFF) 5) v)
      (feedback (Z.land (Z.shiftr chk 25) 0xFF)).
Proof.
  unfold polymod_step, feedback.
  change (seqZ 0 5) with [0; 1; 2; 3; 4]. cbn [fold_left].
  rewrite !Z.lxor_0_l, !Z.lxor_assoc. done.
Qed.

Lemma feedback_small b :
  0 <= b < 256 -> 0 <= feedback b < 2 ^ 30 .
Proof.
  intros Hb.
  assert (forallb (fun b => (0 <=? feedback b) && (feedback b <? 2 ^ 30))
            (seqZ 0 256) = true) as Hall by (vm_compute; reflexivity).
  rewrite forallb_forall in Hall.
  specialize (Hall b). rewrite <- list_elem_of_In, elem_of_seqZ in Hall.
  specialize (Hall ltac:(lia)). apply andb_true_iff in Hall as [?%Z.leb_le ?%Z.ltb_lt].
  done.
Qed.

Lemma in_range_256 b : 0 <= b < 256 <-> In b (seqZ 0 256).
Proof. rewrite <- list_elem_of_In, elem_of_seqZ. lia. Qed.

Lemma feedback_lxor a b :
  0 <= a < 256 -> 0 <= b < 256 ->
  feedback (Z.lxor a b) = Z.lxor (feedback a) (feedback b).
Proof.
  intros Ha%in_range_256 Hb%in_range_256.
  assert (forallb (fun a => forallb (fun b =>
            feedback (Z.lxor a b) =? Z.lxor (feedback a) (feedback b))
            (seqZ 0 256)) (seqZ 0 256) = true) as Hall
    by (vm_compute; reflexivity).
  rewrite forallb_forall in Hall. specialize (Hall a Ha).
  rewrite forallb_forall in Hall. specialize (Hall b Hb).
  by apply Z.eqb_eq.
Qed.

Lemma land_255_range x : 0 <= Z.land x 0xFF < 256.
Proof.
  change 0xFF with (Z.ones 8). rewrite Z.land_ones by lia.
  apply Z.mod_pos_bound. lia.
Qed.

Lemma polymod_step_range chk v :
  0 <= v < 2 ^ 30 -> 0 <= polymod_step chk v < 2 ^ 30.
Proof.
  intros Hv. rewrite polymod_step_split.
  apply lxor_bound; [lia| |apply feedback_small, land_255_range].
  apply lxor_bound; [lia| |done].
  change 0x1FFFFFF with (Z.ones 25). rewrite Z.land_ones, Z.shiftl_mul_pow2 by lia.
  pose proof (Z.mod_pos_bound chk (2 ^ 25) ltac:(lia)). lia.
Qed.

(** [polymod_step] is linear over exclusive or: a change [d] of the state
    goes through as [spread d], whatever the state and the value. *)
Lemma polymod_step_lxor chk d v :
  polymod_step (Z.lxor chk d) v = Z.lxor (polymod_step chk v) (spread d).
Proof.
  unfold spread. rewrite !polymod_step_split.
  rewrite Z.shiftr_lxor, !land_lxor_distr, Z.shiftl_lxor.
  rewrite feedback_lxor by apply land_255_range.
  rewrite Z.lxor_0_r.
  set (a := Z.shiftl (Z.land chk 33554431) 5).
  set (b := Z.shiftl (Z.land d 33554431) 5).
  set (fa := feedback _). set (fb := feedback _).
  apply Z.bits_inj'. intros n _. rewrite !Z.lxor_spec.
  by destruct (Z.testbit a n), (Z.testbit b n), (Z.testbit v n),
       (Z.testbit fa n), (Z.testbit fb n).
Qed.

Lemma polymod_step_value chk v e :
  polymod_step chk (Z.lxor v e) = Z.lxor (polymod_step chk v) e.
Proof.
  rewrite !polymod_step_split.
  apply Z.bits_inj'. intros n _. rewrite !Z.lxor_spec.
  by destruct (Z.testbit _ n), (Z.testbit v n), (Z.testbit e n),
       (Z.testbit _ n).
Qed.

Lemma spread_nonzero d : 0 <= d < 2 ^ 30 -> d <> 0 -> spread d <> 0.
Proof.
  intros Hd Hne Hzero. unfold spread in Hzero.
  rewrite polymod_step_split, Z.lxor_0_r in Hzero.
  apply Z.lxor_eq in Hzero.
  change 0x1FFFFFF with (Z.ones 25) in Hzero.
  change 0xFF with (Z.ones 8) in Hzero.
  rewrite !Z.land_ones, Z.shiftl_mul_pow2, Z.shiftr_div_pow2 in Hzero by lia.
  change (2 ^ 30) with 1073741824 in Hd.
  change (2 ^ 25) with 33554432 in Hzero.
  change (2 ^ 8) with 256 in Hzero. change (2 ^ 5) with 32 in Hzero.
  set (hi := d / 33554432) in *. set (lo := d mod 33554432) in *.
  assert (d = 33554432 * hi + lo /\ 0 <= lo < 33554432) as [Hsplit Hlo].
  { split; [apply Z.div_mod; lia|apply Z.mod_pos_bound; lia]. }
  assert (0 <= hi < 32) as Hhi by lia.
  rewrite (Z.mod_small hi) in Hzero by lia.
  assert (forallb (fun b => negb (feedback b mod 32 =? 0) || (b =? 0))
            (seqZ 0 32) = true) as Hall by (vm_compute; reflexivity).
  rewrite forallb_forall in Hall. specialize (Hall hi).
  rewrite <- list_elem_of_In, elem_of_seqZ in Hall.
  specialize (Hall ltac:(lia)).
  assert (feedback hi mod 32 = 0) as Hlow
    by (rewrite <- Hzero; apply Z.mod_mul; lia).
  rewrite Hlow in Hall. apply orb_true_iff in Hall as [Hall|Hall]; [done|].
  apply Z.eqb_eq in Hall. rewrite Hall in Hzero.
  change (feedback 0) with 0 in Hzero. lia.
Qed.

Lemma spread_range d : 0 <= spread d < 2 ^ 30.
Proof. unfold spread. apply polymod_step_range. split; [done|]. by apply Z.pow_pos_nonneg. Qed.

Lemma polymod_fold_lxor values : forall chk d,
  fold_left polymod_step values (Z.lxor chk d)
  = Z.lxor (fold_left polymod_step values chk)
      (Nat.iter (length values) spread d).
Proof.
  induction values as [|v values IH]; intros chk d; [reflexivity|].
  cbn [fold_left length]. rewrite polymod_step_lxor, IH.
  rewrite Nat.iter_succ_r. reflexivity.
Qed.

Lemma iter_spread_nonzero n : forall d,
  0 <= d < 2 ^ 30 -> d <> 0 -> Nat.iter n spread d <> 0.
Proof.
  induction n as [|n IH]; intros d Hd Hne; [exact Hne|].
  rewrite Nat.iter_succ_r. apply IH; [apply spread_range|].
  apply spread_nonzero; assumption.
Qed.

(** The checksum notices every single substitution: when the values of an
    accepted string are changed at one position of the data part to another
    5-bit value, [_bech32_verify_checksum] rejects the result. *)
Theorem checksum_detects_substitution hrp pre v v' post :
  _bech32_verify_checksum hrp (pre ++ v :: post) = true ->
  0 <= v < 32 -> 0 <= v' < 32 -> v <> v' ->
  _bech32_verify_checksum hrp (pre ++ v' :: post) = false.
Proof.
  unfold _bech32_verify_checksum, _bech32_polymod.
  intros Hok%Z.eqb_eq Hv Hv' Hne. apply Z.eqb_neq.
  rewrite !fold_left_app in *. cbn [fold_left] in *.
  set (chk := fold_left polymod_step pre _) in *.
  set (e := Z.lxor v v').
  assert (0 <= e < 2 ^ 30) as He.
  { pose proof (lxor_bound v v' 5 ltac:(lia) ltac:(done) ltac:(done)) as Hb.
    change (2 ^ 5) with 32 in Hb. split; [apply Hb|].
    apply Z.lt_trans with 32; [apply Hb|done]. }
  assert (e <> 0) as Hnz by (by intros ?%Z.lxor_eq).
  assert (polymod_step chk v' = Z.lxor (polymod_step chk v) e) as ->.
  { rewrite <- polymod_step_value. unfold e.
    by rewrite <- Z.lxor_assoc, Z.lxor_nilpotent, Z.lxor_0_l. }
  rewrite polymod_fold_lxor, Hok. intros Heq.
  apply (iter_spread_nonzero (length post) e He Hnz).
  set (x := Nat.iter _ spread e) in *.
  assert (x = Z.lxor 1 (Z.lxor 1 x)) as ->
    by (by rewrite <- Z.lxor_assoc, Z.lxor_nilpotent, Z.lxor_0_l).
  by rewrite Heq.
Qed.

Lemma checksum_detects_substitution_witness :
  _bech32_verify_checksum (lit "a") ([] ++ 10 :: [28; 25; 31; 20; 31]) = true
  /\ 0 <= 10 < 32 /\ 0 <= 0 < 32 /\ 10 <> 0
  /\ _bech32_verify_checksum (lit "a") ([] ++ 0 :: [28; 25; 31; 20; 31])
     = false.
Proof.
  assert (_bech32_verify_checksum (lit "a")
            ([] ++ 10 :: [28; 25; 31; 20; 31]) = true) as Hok
    by (vm_compute; reflexivity).
  split; [exact Hok|]. split; [lia|]. split; [lia|]. split; [lia|].
  exact (checksum_detects_substitution (lit "a") [] 10 0 [28; 25; 31; 20; 31]
           Hok ltac:(lia) ltac:(lia) ltac:(lia)).
Defined.

Lemma maxv_ones tobits : 0 <= tobits -> Z.shiftl 1 tobits - 1 = Z.ones tobits.
Proof.
  intros Ht. rewrite Z.shiftl_1_l, Z.ones_equiv. lia.
Qed.

Lemma byte_of_int_masked x tobits :
  0 <= tobits <= 8 ->
  exists b, byte_of_int (Z.land x (Z.ones tobits)) = Ok b.
Proof.
  intros Ht. rewrite Z.land_ones by lia.
  pose proof (Z.mod_pos_bound x (2 ^ tobits)
                (Z.pow_pos_nonneg 2 tobits ltac:(lia) ltac:(lia))) as Hm.
  assert (2 ^ tobits <= 2 ^ 8) as Hp by (apply Z.pow_le_mono_r; lia).
  change (2 ^ 8) with 256 in Hp.
  set (y := x mod 2 ^ tobits) in *. unfold byte_of_int.
  destruct (Z.ltb_spec y 0); [lia|]. destruct (Z.ltb_spec 255 y); [lia|].
  cbn [orb]. destruct (Byte.of_N (Z.to_N y)) as [b|] eqn:Hb; [by exists b|].
  apply Byte.of_N_None_iff in Hb. lia.
Qed.

Lemma emit_loop_total (fuel : nat) tobits : forall acc bits ret,
  0 < tobits <= 8 -> 0 <= bits -> (Z.to_nat bits < fuel)%nat ->
  exists bits' ret',
    emit_loop fuel acc bits tobits (Z.ones tobits) ret = Ok (bits', ret')
    /\ 0 <= bits' < tobits.
Proof.
  induction fuel as [|fuel IH]; intros acc bits ret Ht Hb Hfuel; [lia|].
  cbn [emit_loop]. destruct (Z.geb_spec bits tobits) as [Hge|Hlt].
  - destruct (byte_of_int_masked (Z.shiftr acc (bits - tobits)) tobits)
      as [b ->]; [lia|]. cbn [mbind result_bind].
    apply IH; lia.
  - exists bits, ret. split; [done|lia].
Qed.

Lemma convert_loop_total data frombits tobits max_acc :
  0 < frombits -> 0 < tobits <= 8 ->
  forall acc bits ret, 0 <= bits ->
  exists r,
    convert_loop data frombits tobits (Z.ones tobits) max_acc acc bits ret
    = Ok r
    /\ (r = None <-> existsb (out_of_range frombits) data = true)
    /\ (forall acc' bits' ret',
          r = Some (acc', bits', ret') -> 0 <= bits' < Z.max tobits (bits + 1)).
Proof.
  intros Hf Ht. induction data as [|value data IH]; intros acc bits ret Hb.
  - exists (Some (acc, bits, ret)). split; [done|]. split; [done|].
    intros ??? [= <- <- <-]. lia.
  - cbn [convert_loop existsb]. fold (out_of_range frombits value).
    destruct (out_of_range frombits value).
    + exists None. split; [done|]. split; [done|]. by intros.
    + cbn [orb].
      destruct (emit_loop_total (S (Z.to_nat (bits + frombits))) tobits
                  (Z.land (Z.lor (Z.shiftl acc frombits) value) max_acc)
                  (bits + frombits) ret) as (bits1 & ret1 & -> & Hb1);
        [lia..|].
      cbn [mbind result_bind].
      destruct (IH (Z.land (Z.lor (Z.shiftl acc frombits) value) max_acc)
                  bits1 ret1) as (r & -> & Hnone & Hbits); [lia|].
      exists r. split; [done|]. split; [done|].
      intros acc' bits' ret' Hr. specialize (Hbits _ _ _ Hr). lia.
Qed.

Lemma convertbits_returns data frombits tobits pad :
  0 < frombits -> 0 < tobits <= 8 ->
  exists r, _convertbits data frombits tobits pad = Ok r.
Proof.
  intros Hf Ht. unfold _convertbits. rewrite maxv_ones by lia.
  destruct (convert_loop_total data frombits tobits
              (Z.shiftl 1 (frombits + tobits - 1) - 1) Hf Ht 0 0 [])
    as (r & -> & _ & _); [lia|]. cbn [mbind result_bind].
  destruct r as [[[acc bits] ret]|]; [|by eexists].
  destruct pad; [destruct (negb (bits =? 0))|destruct (_ || _)];
    try by eexists.
  destruct (byte_of_int_masked (Z.shiftl acc (tobits - bits)) tobits)
    as [b ->]; [lia|]. by eexists.
Qed.

(** For a target width of 1 to 8 bits and a positive source width,
    [_convertbits] always comes back without raising; it returns [None] as
    soon as a value is negative or wider than [frombits], and with padding
    that is the only case in which it does. *)
Theorem convertbits_total data frombits tobits pad :
  0 < frombits -> 0 < tobits <= 8 ->
  exists r,
    _convertbits data frombits tobits pad = Ok r
    /\ (existsb (out_of_range frombits) data = true -> r = None)
    /\ (pad = true -> r = None ->
        existsb (out_of_range frombits) data = true).
Proof.
  intros Hf Ht. unfold _convertbits. rewrite maxv_ones by lia.
  destruct (convert_loop_total data frombits tobits
              (Z.shiftl 1 (frombits + tobits - 1) - 1) Hf Ht 0 0 [])
    as (r & -> & Hnone & Hbits); [lia|]. cbn [mbind result_bind].
  destruct r as [[[acc bits] ret]|].
  - assert (existsb (out_of_range frombits) data = false) as Hin.
    { destruct (existsb _ data); [|done]. by destruct Hnone as [_ ?%(λ H, H eq_refl)]. }
    destruct pad.
    + destruct (negb (bits =? 0)).
      * destruct (byte_of_int_masked (Z.shiftl acc (tobits - bits)) tobits)
          as [b ->]; [lia|]. cbn [mbind result_bind].
        eexists. split; [done|]. rewrite Hin. by split.
      * eexists. split; [done|]. rewrite Hin. by split.
    + destruct (_ || _); eexists; (split; [done|]); rewrite Hin; by split.
  - exists None. split; [done|]. split; [done|]. intros _ _. by apply Hnone.
Qed.

Lemma convertbits_total_witness :
  0 < 5 /\ 0 < 8 <= 8
  /\ exists r,
       _convertbits [31; 0] 5 8 true = Ok r
       /\ (existsb (out_of_range 5) [31; 0] = true -> r = None)
       /\ (true = true -> r = None ->
           existsb (out_of_range 5) [31; 0] = true).
Proof.
  split; [lia|]. split; [lia|].
  exact (convertbits_total [31; 0] 5 8 true ltac:(lia) ltac:(lia)).
Defined.

Lemma rfind_from_spec s c : forall i last,
  rfind_from s c i last = last
  \/ (i <= rfind_from s c i last < i + len s
      /\ s !! Z.to_nat (rfind_from s c i last - i) = Some c).
Proof.
  induction s as [|x s IH]; intros i last; [by left|].
  cbn [rfind_from]. unfold len in *. cbn [length].
  destruct (IH (i + 1) (if x =? c then i else last)) as [->|[Hr Hat]].
  - destruct (Z.eqb_spec x c) as [->|]; [right|by left].
    split; [lia|]. by rewrite Z.sub_diag.
  - right. split; [lia|].
    replace (Z.to_nat (rfind_from s c (i + 1) (if x =? c then i else last) - i))
      with (S (Z.to_nat (rfind_from s c (i + 1)
                           (if x =? c then i else last) - (i + 1)))) by lia.
    done.
Qed.

Lemma rfind_spec s c :
  0 <= rfind s c ->
  rfind s c < len s /\ s !! Z.to_nat (rfind s c) = Some c.
Proof.
  unfold rfind. intros Hpos.
  destruct (rfind_from_spec s c 0 (-1)) as [Heq|[Hr Hat]]; [lia|].
  rewrite Z.sub_0_r in Hat. split; [lia|done].
Qed.

Lemma charset_values c v :
  _BECH32_CHARSET_MAP !! c = Some v -> 0 <= v < 32.
Proof.
  intros Hin%elem_of_map_to_list.
  assert (forallb (fun cv => (0 <=? cv.2) && (cv.2 <? 32))
            (map_to_list _BECH32_CHARSET_MAP) = true) as Hall
    by (vm_compute; reflexivity).
  rewrite forallb_forall in Hall. apply list_elem_of_In, Hall in Hin.
  cbn in Hin. lia.
Qed.

Lemma charset_words cs data :
  mapM (fun c => _BECH32_CHARSET_MAP !! c) cs = Some data ->
  Forall (fun w => 0 <= w < 32) data.
Proof.
  intros Hdata%mapM_Some.
  induction Hdata as [|c v cs vs Hc _ IH]; constructor; [|done].
  by eapply charset_values.
Qed.

Lemma py_slice_drop_last {A} (l : list A) (k : nat) :
  (0 < k <= length l)%nat ->
  py_slice l 0 (- Z.of_nat k) = take (length l - k) l.
Proof.
  intros Hk. unfold py_slice, clamp, len.
  destruct (Z.ltb_spec 0 0); [lia|].
  destruct (Z.ltb_spec (- Z.of_nat k) 0); [|lia].
  rewrite Z.min_l, Z.max_r by lia. cbn [Z.to_nat drop]. f_equal. lia.
Qed.

Section Payload.
Context `{PyLib}.

(** What [_bech32_decode_to_words] accepts: the lower-cased string is a
    non-empty prefix, the separator and a data part of at least six
    characters; the words are the 5-bit values of the data part without its
    last six characters. *)
Lemma decode_to_words_shape bech hrp words :
  _bech32_decode_to_words bech = Some (hrp, words) ->
  hrp <> []
  /\ Forall (fun w => 0 <= w < 32) words
  /\ exists data_part,
       str_lower bech = hrp ++ one :: data_part
       /\ length data_part = (length words + 6)%nat.
Proof.
  unfold _bech32_decode_to_words. intros Hrun.
  destruct (_ || _); [done|].
  set (s := str_lower bech) in *.
  destruct (Z.ltb_spec (rfind s one) 1) as [|Hpos]; [done|].
  destruct (Z.gtb_spec (rfind s one + 7) (len s)) as [|Hlen]; [done|].
  cbn [orb] in Hrun.
  destruct (rfind_spec s one ltac:(lia)) as [Hlt Hat].
  set (pos := Z.to_nat (rfind s one)) in *.
  rewrite (py_slice_inner s 0 (rfind s one)) in Hrun by lia.
  rewrite (py_slice_inner s (rfind s one + 1) (len s)) in Hrun by lia.
  rewrite Z.sub_0_r in Hrun. change (Z.to_nat 0) with 0%nat in Hrun.
  rewrite drop_0 in Hrun. fold pos in Hrun.
  replace (Z.to_nat (rfind s one + 1)) with (S pos) in Hrun by lia.
  rewrite take_ge in Hrun by (rewrite length_drop; unfold len; lia).
  destruct (mapM _ (drop (S pos) s)) as [data|] eqn:Hdata; [|done].
  destruct (negb _); [done|]. injection Hrun as <- <-.
  pose proof (length_mapM _ _ _ Hdata) as Hdl.
  rewrite length_drop in Hdl. unfold len in *.
  assert (6 <= length data)%nat as H6 by lia.
  pose proof (py_slice_drop_last data 6 ltac:(lia)) as Hcut.
  change (- Z.of_nat 6) with (-6) in Hcut. rewrite Hcut.
  assert (1 <= pos < length s)%nat as Hp by (unfold pos; lia).
  split; [|split].
  - intros Hnil%(f_equal length). rewrite length_take in Hnil.
    cbn [length] in Hnil. lia.
  - apply Forall_take. by eapply charset_words.
  - exists (drop (S pos) s). split.
    + rewrite <- (take_drop pos s) at 1. f_equal. by apply drop_S.
    + rewrite length_take, length_drop. lia.
Qed.

(** [_nip19_payload] comes back on every string: it returns, or it raises
    a [ValueError] with one of its own two messages and nothing else; the
    prefix it returns is not empty and is followed, in the lower-cased
    string, by the separator and at least six characters. *)
Theorem nip19_payload_outcomes s :
  match _nip19_payload s with
  | Ok (hrp, payload) =>
      hrp <> []
      /\ exists data_part,
           str_lower s = hrp ++ one :: data_part
           /\ (6 <= length data_part)%nat
  | Raise e =>
      e = ValueError "Invalid bech32 string"
      \/ e = ValueError "Invalid bech32 payload conversion"
  | Diverge => False
  end.
Proof.
  unfold _nip19_payload.
  destruct (_bech32_decode_to_words s) as [[hrp words]|] eqn:Hdec;
    [|by left].
  apply decode_to_words_shape in Hdec as (Hne & Hwords & dp & Hs & Hlen).
  destruct (convertbits_returns words 5 8 false) as (r & ->); [lia..|].
  cbn [mbind result_bind]. destruct r as [payload|]; [|by right].
  split; [done|]. exists dp. split; [done|lia].
Qed.

Lemma printable_exists s :
  existsb (fun x => (x <? 33) || (x >? 126)) s = negb (forallb printable s).
Proof.
  induction s as [|x s IH]; [done|]. cbn [existsb forallb].
  rewrite IH. unfold printable.
  destruct ((x <? 33) || (x >? 126)); cbn [negb orb andb]; reflexivity.
Qed.

Lemma printable_spec x : printable x = true <-> 33 <= x <= 126.
Proof.
  unfold printable.
  destruct (Z.ltb_spec x 33), (Z.gtb_spec x 126); cbn; split; try done; lia.
Qed.

Lemma ascii_upper_spec x :
  (97 <= x <= 122 /\ ascii_upper x = x - 32)
  \/ (~ 97 <= x <= 122 /\ ascii_upper x = x).
Proof.
  unfold ascii_upper.
  destruct (Z.leb_spec 97 x), (Z.leb_spec x 122); cbn [andb];
    [left|right..]; split; done || lia.
Qed.

Lemma ascii_lower_spec x :
  (65 <= x <= 90 /\ ascii_lower x = x + 32)
  \/ (~ 65 <= x <= 90 /\ ascii_lower x = x).
Proof.
  unfold ascii_lower.
  destruct (Z.leb_spec 65 x), (Z.leb_spec x 90); cbn [andb];
    [left|right..]; split; done || lia.
Qed.

Lemma upper_printable s :
  forallb printable s = true -> forallb printable (map ascii_upper s) = true.
Proof.
  induction s as [|x s IH]; [done|]. cbn [forallb map].
  intros [Hx%printable_spec Hs]%andb_true_iff. rewrite IH by done.
  apply andb_true_iff. split; [|done]. apply printable_spec.
  destruct (ascii_upper_spec x) as [[? ->]|[? ->]]; lia.
Qed.

Lemma upper_upper s : map ascii_upper (map ascii_upper s) = map ascii_upper s.
Proof.
  rewrite map_map. apply map_ext. intros x.
  destruct (ascii_upper_spec x) as [[? Hx]|[? Hx]]; rewrite Hx; [|done].
  destruct (ascii_upper_spec (x - 32)) as [[? Hy]|[? Hy]]; [lia|done].
Qed.

Lemma lower_upper s :
  map ascii_lower s = s -> map ascii_lower (map ascii_upper s) = s.
Proof.
  induction s as [|x s IH]; [done|]. cbn [map]. intros [= Hx Hs].
  rewrite IH by done. f_equal.
  destruct (ascii_lower_spec x) as [[? Hl]|[? Hl]]; [lia|].
  destruct (ascii_upper_spec x) as [[? Hu]|[? Hu]]; rewrite Hu; [|done].
  destruct (ascii_lower_spec (x - 32)) as [[? Hy]|[? Hy]]; lia.
Qed.

(** Bech32 strings are read without regard to case as long as the case is
    not mixed: the upper-case form of a lower-case string of printable
    characters decodes to the same (lower-case) prefix and the same bytes,
    or fails in the same way. *)
Theorem nip19_payload_upper s :
  forallb printable s = true ->
  str_lower s = s ->
  _nip19_payload (str_upper s) = _nip19_payload s.
Proof.
  intros Hp Hlow. unfold _nip19_payload. f_equal.
  pose proof (upper_printable s Hp) as Hpu.
  rewrite <- (str_upper_printable s Hp) in Hpu.
  assert (str_lower (str_upper s) = s) as Hlu.
  { rewrite (str_lower_printable _ Hpu), (str_upper_printable s Hp).
    apply lower_upper. by rewrite <- (str_lower_printable s Hp). }
  assert (str_upper (str_upper s) = str_upper s) as Huu.
  { rewrite (str_upper_printable _ Hpu), (str_upper_printable s Hp).
    apply upper_upper. }
  set (u := str_upper s) in *.
  unfold _bech32_decode_to_words.
  rewrite !printable_exists, Hp, Hpu, Hlu, Huu, Hlow.
  rewrite (bool_decide_eq_false_2 (u ≠ u)) by (by intros ?).
  rewrite (bool_decide_eq_false_2 (s ≠ s)) by (by intros ?).
  by rewrite andb_false_r.
Qed.

End Payload.

Section Examples.
#[local] Existing Instance Runtime.ascii.

Lemma nip19_payload_upper_witness :
  forallb printable (lit "a12uel5l") = true
  /\ str_lower (lit "a12uel5l") = lit "a12uel5l"
  /\ _nip19_payload (str_upper (lit "a12uel5l"))
     = _nip19_payload (lit "a12uel5l").
Proof.
  split; [reflexivity|]. split; [reflexivity|].
  exact (nip19_payload_upper (lit "a12uel5l") eq_refl eq_refl).
Defined.

End Examples.

Lemma byte_of_int_ord x b : byte_of_int x = Ok b -> ord_byte b = x.
Proof.
  unfold byte_of_int, ord_byte.
  destruct (Z.ltb_spec x 0), (Z.ltb_spec 255 x); cbn [orb]; try done.
  destruct (Byte.of_N (Z.to_N x)) as [b'|] eqn:Hb; [|done].
  intros [= <-]. apply Byte.to_of_N in Hb. lia.
Qed.

Lemma byte_of_int_mod x :
  exists b, byte_of_int (x mod 256) = Ok b /\ ord_byte b = x mod 256.
Proof.
  destruct (byte_of_int_masked x 8) as [b Hb]; [lia|].
  rewrite Z.land_ones in Hb by lia. change (2 ^ 8) with 256 in Hb.
  exists b. split; [done|]. by apply byte_of_int_ord.
Qed.

Lemma int_from_bytes_big_snoc ret b :
  int_from_bytes_big (ret ++ [b]) = int_from_bytes_big ret * 256 + ord_byte b.
Proof. unfold int_from_bytes_big. by rewrite fold_left_app. Qed.

Lemma lor_low acc value :
  0 <= value < 32 -> Z.lor (Z.shiftl acc 5) value = acc * 32 + value.
Proof.
  intros Hv.
  assert (Z.land (Z.shiftl acc 5) value = 0) as Hdisjoint.
  { apply Z.bits_inj'. intros n Hn. rewrite Z.land_spec, Z.bits_0.
    destruct (Z.lt_ge_cases n 5); [by rewrite Z.shiftl_spec_low|].
    destruct (decide (value = 0)) as [->|];
      [by rewrite Z.bits_0, andb_false_r|].
    rewrite (Z.bits_above_log2 value n), andb_false_r; [done|lia|].
    apply Z.lt_le_trans with 5; [|done]. apply Z.log2_lt_pow2; lia. }
  rewrite <- Z.lxor_lor, <- Z.add_nocarry_lxor by done.
  by rewrite Z.shiftl_mul_pow2.
Qed.

Lemma emit_none (f : nat) acc b ret :
  b < 8 -> emit_loop (S f) acc b 8 255 ret = Ok (b, ret).
Proof.
  intros Hb. cbn [emit_loop]. by destruct (Z.geb_spec b 8); [lia|].
Qed.

Lemma emit_once (f : nat) acc b ret :
  8 <= b < 16 ->
  emit_loop (S (S f)) acc b 8 255 ret
  = (byte ← byte_of_int (Z.land (Z.shiftr acc (b - 8)) 255);
     Ok (b - 8, ret ++ [byte])).
Proof.
  intros Hb. cbn [emit_loop]. destruct (Z.geb_spec b 8); [|lia].
  destruct (Z.geb_spec (b - 8) 8); [lia|]. reflexivity.
Qed.

Lemma shift_in V value bits :
  0 <= value < 32 -> 0 <= bits ->
  (V * 32 + value) / 2 ^ (bits + 5) = V / 2 ^ bits.
Proof.
  intros Hv Hb. rewrite Z.pow_add_r by lia. change (2 ^ 5) with 32.
  pose proof (Z.pow_pos_nonneg 2 bits ltac:(lia) Hb) as Hpos.
  rewrite (Z.mul_comm (2 ^ bits) 32), <- Z.div_div by lia.
  by rewrite Z.div_add_l, (Z.div_small value 32), Z.add_0_r by lia.
Qed.

Lemma window X b :
  0 <= b <= 4 -> ((X mod 4096) / 2 ^ b) mod 256 = (X / 2 ^ b) mod 256.
Proof.
  intros Hb.
  assert (b = 0 \/ b = 1 \/ b = 2 \/ b = 3 \/ b = 4) as Hcase by lia.
  destruct Hcase as [->|[->|[->|[->| ->]]]];
    match goal with |- context [2 ^ ?k] =>
      let v := eval compute in (2 ^ k) in change (2 ^ k) with v end;
    Z.div_mod_to_equations; lia.
Qed.

(** One round of the loop of [_convertbits] from 5 to 8 bits, on a state
    that holds the number [V] read so far: [acc] is [V] cut to 12 bits,
    [ret] is [V] without its [bits] lowest bits. *)
Lemma convert_step value data acc bits ret V :
  0 <= value < 32 -> 0 <= bits < 8 ->
  acc = V mod 4096 -> int_from_bytes_big ret = V / 2 ^ bits ->
  exists acc' bits' ret',
    convert_loop (value :: data) 5 8 255 4095 acc bits ret
    = convert_loop data 5 8 255 4095 acc' bits' ret'
    /\ 0 <= bits' < 8
    /\ acc' = (V * 32 + value) mod 4096
    /\ int_from_bytes_big ret' = (V * 32 + value) / 2 ^ bits'
    /\ 8 * len ret' + bits' = 8 * len ret + bits + 5.
Proof.
  intros Hv Hb Hacc Hret. cbn [convert_loop].
  destruct (Z.ltb_spec value 0); [lia|]. cbn [orb].
  rewrite Z.shiftr_div_pow2 by lia. change (2 ^ 5) with 32.
  rewrite (Z.div_small value) by lia. cbn [Z.eqb negb].
  rewrite lor_low by done. change 4095 with (Z.ones 12).
  rewrite Z.land_ones by lia. change (2 ^ 12) with 4096.
  assert ((acc * 32 + value) mod 4096 = (V * 32 + value) mod 4096) as Hacc'.
  { subst acc. rewrite <- Zplus_mod_idemp_l, Zmult_mod_idemp_l.
    by rewrite Zplus_mod_idemp_l. }
  rewrite Hacc'. set (X := V * 32 + value) in *.
  destruct (Z.lt_ge_cases (bits + 5) 8) as [Hlow|Hhigh].
  - rewrite emit_none by done. cbn [mbind result_bind].
    exists (X mod 4096), (bits + 5), ret. split; [done|]. split; [lia|].
    split; [done|]. split; [|lia]. unfold X. by rewrite shift_in by lia.
  - replace (Z.to_nat (bits + 5)) with (S (Z.to_nat (bits + 4))) by lia.
    rewrite emit_once by lia. change 255 with (Z.ones 8).
    rewrite Z.land_ones, Z.shiftr_div_pow2 by lia. change (2 ^ 8) with 256.
    rewrite window by lia.
    destruct (byte_of_int_mod (X / 2 ^ (bits + 5 - 8))) as (b & -> & Hb').
    cbn [mbind result_bind].
    exists (X mod 4096), (bits + 5 - 8), (ret ++ [b]). split; [done|].
    split; [lia|]. split; [done|]. split.
    + rewrite int_from_bytes_big_snoc, Hb', Hret.
      rewrite <- (shift_in V value bits) by lia. fold X.
      replace (bits + 5) with ((bits + 5 - 8) + 8) at 1 by lia.
      rewrite Z.pow_add_r, <- Z.div_div by (try lia; by apply Z.pow_pos_nonneg).
      change (2 ^ 8) with 256.
      pose proof (Z.div_mod (X / 2 ^ (bits + 5 - 8)) 256 ltac:(lia)). lia.
    + rewrite len_app. unfold len. cbn [length]. lia.
Qed.

Lemma convert_loop_5_8 data : forall acc bits ret V,
  Forall (fun w => 0 <= w < 32) data -> 0 <= bits < 8 ->
  acc = V mod 4096 -> int_from_bytes_big ret = V / 2 ^ bits ->
  exists acc' bits' ret',
    convert_loop data 5 8 255 4095 acc bits ret = Ok (Some (acc', bits', ret'))
    /\ 0 <= bits' < 8
    /\ acc' = fold_left (fun a w => a * 32 + w) data V mod 4096
    /\ int_from_bytes_big ret'
       = fold_left (fun a w => a * 32 + w) data V / 2 ^ bits'
    /\ 8 * len ret' + bits' = 8 * len ret + bits + 5 * len data.
Proof.
  induction data as [|value data IH]; intros acc bits ret V Hall Hb Hacc Hret.
  - exists acc, bits, ret. cbn. unfold len. cbn [length].
    repeat split; try done; lia.
  - apply Forall_cons in Hall as [Hv Hrest].
    destruct (convert_step value data acc bits ret V Hv Hb Hacc Hret)
      as (acc1 & bits1 & ret1 & -> & Hb1 & Hacc1 & Hret1 & Hlen1).
    destruct (IH acc1 bits1 ret1 (V * 32 + value) Hrest Hb1 Hacc1 Hret1)
      as (acc2 & bits2 & ret2 & -> & Hb2 & Hacc2 & Hret2 & Hlen2).
    exists acc2, bits2, ret2. cbn [fold_left].
    repeat split; try done; try lia.
    unfold len in *. cbn [length]. lia.
Qed.

Lemma leftover_zero V bits :
  0 <= bits < 5 ->
  ((V mod 4096) * 2 ^ (8 - bits)) mod 256 = 0 <-> V mod 2 ^ bits = 0.
Proof.
  intros Hb.
  assert (bits = 0 \/ bits = 1 \/ bits = 2 \/ bits = 3 \/ bits = 4)
    as Hcase by lia.
  destruct Hcase as [->|[->|[->|[->| ->]]]];
    repeat match goal with |- context [2 ^ ?k] =>
      let v := eval compute in (2 ^ k) in change (2 ^ k) with v end;
    Z.div_mod_to_equations; lia.
Qed.

(** From 5-bit words to bytes, as [_nip19_payload] calls it, [_convertbits]
    keeps the bits: with [k] words that spell the number [V] and
    [r = 5k mod 8] bits left over, it returns the [5k / 8] bytes that spell
    [V] without its last [r] bits, provided [r < 5] and those bits are all
    zero, and [None] otherwise. *)
Theorem convertbits_5_8 words :
  Forall (fun w => 0 <= w < 32) words ->
  exists r,
    _convertbits words 5 8 false = Ok r
    /\ match r with
       | Some payload =>
           (5 * len words) mod 8 < 5
           /\ words_value words mod 2 ^ ((5 * len words) mod 8) = 0
           /\ len payload = 5 * len words / 8
           /\ int_from_bytes_big payload
              = words_value words / 2 ^ ((5 * len words) mod 8)
       | None =>
           5 <= (5 * len words) mod 8
           \/ words_value words mod 2 ^ ((5 * len words) mod 8) <> 0
       end.
Proof.
  intros Hall. unfold _convertbits.
  change (Z.shiftl 1 8 - 1) with 255.
  change (Z.shiftl 1 (5 + 8 - 1) - 1) with 4095.
  destruct (convert_loop_5_8 words 0 0 [] 0 Hall)
    as (acc & bits & ret & -> & Hb & Hacc & Hret & Hlen); [lia|done|done|].
  fold (words_value words) in *. cbn [mbind result_bind].
  change (len []) with 0 in Hlen.
  assert ((5 * len words) mod 8 = bits) as Hmod
    by (symmetry; apply (Z.mod_unique_pos _ _ (len ret)); lia).
  assert (5 * len words / 8 = len ret) as Hdiv
    by (symmetry; apply (Z.div_unique_pos _ _ _ bits); lia).
  rewrite Hmod, Hdiv.
  destruct (Z.geb_spec bits 5) as [Hge|Hlt]; cbn [orb].
  { eexists. split; [done|]. by left. }
  change 255 with (Z.ones 8).
  rewrite Z.land_ones, Z.shiftl_mul_pow2 by lia. change (2 ^ 8) with 256.
  rewrite Hacc.
  destruct (Z.eqb_spec ((words_value words mod 4096 * 2 ^ (8 - bits)) mod 256) 0)
    as [Hz|Hnz]; cbn [negb]; (eexists; split; [done|]).
  - apply leftover_zero in Hz; [|lia]. repeat split; try done; lia.
  - right. intros Hz. apply Hnz. apply leftover_zero; [lia|done].
Qed.

Lemma convertbits_5_8_witness :
  Forall (fun w => 0 <= w < 32) [31; 31; 31; 31; 31; 31; 31; 31]
  /\ exists r,
       _convertbits [31; 31; 31; 31; 31; 31; 31; 31] 5 8 false = Ok r
       /\ match r with
          | Some payload =>
              (5 * len [31; 31; 31; 31; 31; 31; 31; 31]) mod 8 < 5
              /\ words_value [31; 31; 31; 31; 31; 31; 31; 31]
                 mod 2 ^ ((5 * len [31; 31; 31; 31; 31; 31; 31; 31]) mod 8)
                 = 0
              /\ len payload = 5 * len [31; 31; 31; 31; 31; 31; 31; 31] / 8
              /\ int_from_bytes_big payload
                 = words_value [31; 31; 31; 31; 31; 31; 31; 31]
                   / 2 ^ ((5 * len [31; 31; 31; 31; 31; 31; 31; 31]) mod 8)
          | None =>
              5 <= (5 * len [31; 31; 31; 31; 31; 31; 31; 31]) mod 8
              \/ words_value [31; 31; 31; 31; 31; 31; 31; 31]
                 mod 2 ^ ((5 * len [31; 31; 31; 31; 31; 31; 31; 31]) mod 8)
                 <> 0
          end.
Proof.
  assert (Forall (fun w => 0 <= w < 32) [31; 31; 31; 31; 31; 31; 31; 31])
    as Hall by (repeat constructor; lia).
  split; [exact Hall|].
  exact (convertbits_5_8 [31; 31; 31; 31; 31; 31; 31; 31] Hall).
Defined.

End Bech32Facts.

(** ** CPE names *)

Module CpeFacts.
Import Cpe Runtime.

Lemma split_cons sep s : exists p ps, split sep s = p :: ps.
Proof.
  destruct s as [|x s]; cbn; [by eexists _, _|].
  destruct (x =? sep); [by eexists _, _|].
  destruct (split sep s); by eexists _, _.
Qed.

Lemma join_split sep s : join sep (split sep s) = s.
Proof.
  induction s as [|x s IH]; [done|]. cbn [split].
  destruct (split_cons sep s) as (p & ps & Hs). rewrite Hs in *.
  destruct (Z.eqb_spec x sep) as [->|].
  - change (sep :: join sep (p :: ps) = sep :: s). by rewrite IH.
  - destruct ps as [|q ps].
    + change (x :: join sep [p] = x :: s). by rewrite IH.
    + change (x :: join sep (p :: q :: ps) = x :: s). by rewrite IH.
Qed.

Lemma split_no_sep sep s : Forall (fun p => sep ∉ p) (split sep s).
Proof.
  induction s as [|x s IH]; cbn [split].
  - constructor; [by intros ?%elem_of_nil|constructor].
  - destruct (Z.eqb_spec x sep).
    + constructor; [by intros ?%elem_of_nil|done].
    + destruct (split sep s) as [|p ps]; inversion IH; subst.
      * constructor; [|constructor].
        intros [?|?%elem_of_nil]%elem_of_cons; done.
      * constructor; [|done]. intros [?|?]%elem_of_cons; done.
Qed.

Lemma split_app_sep sep p s :
  sep ∉ p -> split sep (p ++ sep :: s) = p :: split sep s.
Proof.
  induction p as [|x p IH]; intros Hp; cbn [app split].
  - by rewrite Z.eqb_refl.
  - destruct (Z.eqb_spec x sep) as [->|].
    + exfalso. apply Hp. by left.
    + rewrite IH; [done|]. intros ?. apply Hp. by right.
Qed.

Lemma split_plain sep p : sep ∉ p -> split sep p = [p].
Proof.
  induction p as [|x p IH]; intros Hp; cbn [split]; [done|].
  destruct (Z.eqb_spec x sep) as [->|].
  - exfalso. apply Hp. by left.
  - rewrite IH; [done|]. intros ?. apply Hp. by right.
Qed.

Lemma split_join sep parts :
  parts <> [] -> Forall (fun p => sep ∉ p) parts ->
  split sep (join sep parts) = parts.
Proof.
  induction parts as [|p parts IH]; intros Hne Hall; [done|].
  inversion Hall as [|?? Hp Hps]; subst.
  destruct parts as [|q parts]; cbn [join].
  - by apply split_plain.
  - rewrite split_app_sep by done. f_equal. by apply IH.
Qed.

Lemma normalize_cpe23_ok cpe out :
  normalize_cpe23 cpe = Ok out <->
  exists rest,
    split colon cpe = lit "cpe" :: rest
    /\ (2 <= length rest <= 12)%nat
    /\ out = join colon (lit "cpe" :: rest
                          ++ replicate (12 - length rest) (lit "*")).
Proof.
  unfold normalize_cpe23.
  destruct (split_cons colon cpe) as (p0 & rest & Hs).
  case_bool_decide as Hempty.
  { subst cpe. cbn in Hs. simplify_eq. split; [done|].
    intros (rest & [=] & _). }
  rewrite Hs. change (py_index (p0 :: rest) 0) with (Ok p0 : result _).
  cbn [mbind result_bind]. unfold len. cbn [length].
  case_bool_decide as Hp0.
  { split; [done|]. intros (rest' & [= -> _] & _). done. }
  subst p0.
  destruct (Z.ltb_spec (Z.of_nat (S (length rest))) 3).
  { split; [done|]. intros (rest' & [= <-] & ? & _). lia. }
  destruct (Z.ltb_spec (Z.of_nat (S (length rest))) 13) as [Hlt|Hge].
  - rewrite length_app, length_replicate.
    replace (Z.to_nat (13 - Z.of_nat (S (length rest))))
      with (12 - length rest)%nat by lia.
    cbn [length].
    destruct (Z.eqb_spec (Z.of_nat (S (length rest) + (12 - length rest)))
                13); [|lia].
    cbn [negb]. split.
    + intros [= <-]. exists rest. by split; [|split; [lia|]].
    + intros (rest' & [= <-] & _ & ->). done.
  - cbn [length].
    destruct (Z.eqb_spec (Z.of_nat (S (length rest))) 13) as [Heq|Hne];
      cbn [negb].
    + assert (12 - length rest = 0)%nat as Hz by lia. split.
      * intros [= <-]. exists rest. split; [done|]. split; [lia|].
        rewrite Hz. cbn [replicate]. by rewrite app_nil_r.
      * intros (rest' & [= <-] & _ & ->). rewrite Hz. cbn [replicate].
        by rewrite app_nil_r.
    + split; [done|]. intros (rest' & [= <-] & ? & _). lia.
Qed.

Lemma validate_cpe23_ok cpe :
  validate_cpe23 cpe = Ok () <->
  exists version part rest,
    split colon cpe = lit "cpe" :: version :: part :: rest
    /\ length rest = 10%nat
    /\ version <> []
    /\ (part = lit "a" \/ part = lit "o" \/ part = lit "h").
Proof.
  unfold validate_cpe23.
  destruct (split_cons colon cpe) as (p0 & ps & Hs).
  case_bool_decide as Hempty.
  { subst cpe. cbn in Hs. simplify_eq. split; [done|].
    intros (? & ? & ? & [=] & _). }
  rewrite Hs. unfold len.
  destruct (Z.eqb_spec (Z.of_nat (length (p0 :: ps))) 13) as [Hlen|Hlen];
    cbn [negb].
  2:{ split; [done|]. intros (? & ? & ? & [= -> ->] & ? & _).
      cbn [length] in Hlen. lia. }
  destruct ps as [|version [|part rest]]; [cbn in Hlen; lia..|].
  change (py_index (p0 :: version :: part :: rest) 0) with (Ok p0 : result _).
  change (py_index (p0 :: version :: part :: rest) 1)
    with (Ok version : result _).
  change (py_index (p0 :: version :: part :: rest) 2)
    with (Ok part : result _).
  cbn [mbind result_bind length] in *.
  case_bool_decide as Hp0.
  { split; [done|]. intros (? & ? & ? & [= -> _ _ _] & _). done. }
  subst p0.
  case_bool_decide as Hv.
  { split; [done|]. intros (? & ? & ? & [= <- _ _] & _ & ? & _). done. }
  repeat case_bool_decide; cbn [orb negb]; split; try done;
    try (intros _; exists version, part, rest;
         split; [done|]; split; [lia|]; split; [done|]; auto);
    intros (? & ? & ? & [= <- <- <-] & _ & _ & [?|[?|?]]); done.
Qed.

Lemma no_colon_cpe : colon ∉ lit "cpe".
Proof.
  intros Hin%list_elem_of_In. vm_compute in Hin. intuition discriminate.
Qed.

Lemma no_colon_star : colon ∉ lit "*".
Proof.
  intros Hin%list_elem_of_In. vm_compute in Hin. intuition discriminate.
Qed.

Lemma padded_no_colon rest k :
  Forall (fun p => colon ∉ p) rest ->
  Forall (fun p => colon ∉ p) (lit "cpe" :: rest ++ replicate k (lit "*")).
Proof.
  intros Hrest. constructor; [apply no_colon_cpe|].
  apply Forall_app. split; [done|]. apply Forall_replicate, no_colon_star.
Qed.

Lemma join_snoc sep ps q :
  ps <> [] -> join sep (ps ++ [q]) = join sep ps ++ sep :: q.
Proof.
  induction ps as [|p ps IH]; intros Hne; [done|].
  destruct ps as [|p' ps]; [done|].
  change (p ++ sep :: join sep ((p' :: ps) ++ [q])
          = (p ++ sep :: join sep (p' :: ps)) ++ sep :: q).
  rewrite IH by done. by rewrite <- app_assoc.
Qed.

Lemma join_pad sep star k : forall ps,
  ps <> [] ->
  join sep (ps ++ replicate k star)
  = join sep ps ++ mjoin (replicate k (sep :: star)).
Proof.
  induction k as [|k IH]; intros ps Hne; cbn [replicate mjoin].
  - by rewrite !app_nil_r.
  - replace (ps ++ star :: replicate k star)
      with ((ps ++ [star]) ++ replicate k star) by (by rewrite <- app_assoc).
    rewrite IH by (by destruct ps). rewrite join_snoc by done.
    by rewrite <- app_assoc.
Qed.

(** [normalize_cpe23] only pads: its result is the input followed by [":*"]
    as many times as fields are missing, it has exactly 13 colon-separated
    fields, and normalizing it again changes nothing. *)
Theorem normalize_cpe23_idempotent cpe out :
  normalize_cpe23 cpe = Ok out ->
  normalize_cpe23 out = Ok out
  /\ length (split colon out) = 13%nat
  /\ out = cpe ++ mjoin (replicate (13 - length (split colon cpe)) (lit ":*")).
Proof.
  intros (rest & Hs & Hlen & ->)%normalize_cpe23_ok.
  set (k := (12 - length rest)%nat).
  assert (Forall (fun p => colon ∉ p) rest) as Hrest.
  { pose proof (split_no_sep colon cpe) as Hall. rewrite Hs in Hall.
    by inversion Hall. }
  assert (split colon (join colon (lit "cpe" :: rest ++ replicate k (lit "*")))
          = lit "cpe" :: rest ++ replicate k (lit "*")) as Hsplit
    by (apply split_join; [done|by apply padded_no_colon]).
  split; [|split].
  - apply normalize_cpe23_ok. exists (rest ++ replicate k (lit "*")).
    split; [done|]. rewrite length_app, length_replicate.
    split; [unfold k; lia|].
    replace (12 - (length rest + k))%nat with 0%nat by (unfold k; lia).
    cbn [replicate]. by rewrite app_nil_r.
  - rewrite Hsplit. cbn [length]. rewrite length_app, length_replicate.
    unfold k. lia.
  - rewrite Hs. cbn [length].
    replace (13 - S (length rest))%nat with k by (unfold k; lia).
    rewrite <- (join_split colon cpe) at 1. rewrite Hs.
    pose proof (join_pad colon (lit "*") k (lit "cpe" :: rest)) as Hpad.
    rewrite <- app_comm_cons in Hpad. by rewrite Hpad.
Qed.

(** What [validate_cpe23] makes of a normalized name, as the prompt for a
    CPE runs the two: it accepts the result of [normalize_cpe23] exactly
    when the second field of the input (the version) is not empty and the
    third (the part) is [a], [o] or [h]. *)
Theorem validate_normalized_cpe23 cpe out :
  normalize_cpe23 cpe = Ok out ->
  validate_cpe23 out = Ok () <->
  exists version part rest,
    split colon cpe = lit "cpe" :: version :: part :: rest
    /\ version <> []
    /\ (part = lit "a" \/ part = lit "o" \/ part = lit "h").
Proof.
  intros (rest & Hs & Hlen & ->)%normalize_cpe23_ok.
  set (k := (12 - length rest)%nat).
  assert (Forall (fun p => colon ∉ p) rest) as Hrest.
  { pose proof (split_no_sep colon cpe) as Hall. rewrite Hs in Hall.
    by inversion Hall. }
  rewrite validate_cpe23_ok, split_join by (done || by apply padded_no_colon).
  rewrite Hs. destruct rest as [|version [|part rest]]; [cbn in Hlen; lia..|].
  split.
  - intros (v & p & r & [= <- <- _] & _ & Hv & Hp). by exists version, part, rest.
  - intros (v & p & r & [= <- <- <-] & Hv & Hp).
    exists version, part, (rest ++ replicate k (lit "*")).
    split; [done|]. split; [|done].
    rewrite length_app, length_replicate. unfold k. cbn [length] in *. lia.
Qed.

(** A name [validate_cpe23] accepts is already normal. *)
Theorem normalize_valid_cpe23 cpe :
  validate_cpe23 cpe = Ok () -> normalize_cpe23 cpe = Ok cpe.
Proof.
  intros (version & part & rest & Hs & Hlen & _)%validate_cpe23_ok.
  apply normalize_cpe23_ok. exists (version :: part :: rest).
  split; [done|]. cbn [length]. split; [lia|].
  replace (12 - S (S (length rest)))%nat with 0%nat by lia.
  cbn [replicate]. rewrite app_nil_r, <- Hs. by rewrite join_split.
Qed.

Lemma normalize_cpe23_idempotent_witness :
  normalize_cpe23 short_cpe = Ok padded_cpe
  /\ normalize_cpe23 padded_cpe = Ok padded_cpe
  /\ length (split colon padded_cpe) = 13%nat
  /\ padded_cpe
     = short_cpe
       ++ mjoin (replicate (13 - length (split colon short_cpe)) (lit ":*")).
Proof.
  assert (normalize_cpe23 short_cpe = Ok padded_cpe) as Hrun
    by (vm_compute; reflexivity).
  split; [exact Hrun|].
  exact (normalize_cpe23_idempotent short_cpe padded_cpe Hrun).
Defined.

Lemma validate_normalized_cpe23_witness :
  normalize_cpe23 short_cpe = Ok padded_cpe
  /\ (validate_cpe23 padded_cpe = Ok () <->
      exists version part rest,
        split colon short_cpe = lit "cpe" :: version :: part :: rest
        /\ version <> []
        /\ (part = lit "a" \/ part = lit "o" \/ part = lit "h")).
Proof.
  assert (normalize_cpe23 short_cpe = Ok padded_cpe) as Hrun
    by (vm_compute; reflexivity).
  split; [exact Hrun|].
  exact (validate_normalized_cpe23 short_cpe padded_cpe Hrun).
Defined.

Lemma normalize_valid_cpe23_witness :
  validate_cpe23 padded_cpe = Ok ()
  /\ normalize_cpe23 padded_cpe = Ok padded_cpe.
Proof.
  assert (validate_cpe23 padded_cpe = Ok ()) as Hrun
    by (vm_compute; reflexivity).
  split; [exact Hrun|].
  exact (normalize_valid_cpe23 padded_cpe Hrun).
Defined.

End CpeFacts.

(** ** The relay list *)

Module RelaysFacts.
Import Relays.

Section WithLib.
Context `{PyLib}.


End WithLib.

End RelaysFacts.
